(** * Workload discovery: classification, aggregation and publication

    A shallow embedding of the two program variants of the discovery loop:
    - [Discovery]: [src/discovery.go], the variant that also tracks FIPS
      compliance (four gauges, capitalised base-type tags);
    - [Slog]: the structured-logging variant (three gauges, lowercase tags,
      exact matching on the [ID=] line only).

    Go strings are byte sequences; they are modelled by [string] (a list of
    8-bit characters).  Go maps are modelled by [gmap string nat].  The
    counters of the source are [float64] values that start at [0] and only
    ever grow by [1]; every such value is an exactly representable natural
    number, so they are modelled by [nat]. *)

From Stdlib Require Import Ascii String List Bool Arith Lia Permutation.
From stdpp Require Import gmap strings list fin_maps.

Local Open Scope string_scope.
Local Open Scope list_scope.

(* Let [simpl] and [cbn] compute appends whose left operand is known. *)
Local Arguments String.append !_ _.

(** ** The functions of Go's package [strings] used by the program *)

Module strings.

(** The bytes the source mentions that cannot be written inside a literal. *)
Definition newline : ascii := "010"%char.
Definition dquote : ascii := "034"%char.

(** ['A' <= c && c <= 'Z'] *)
Definition isUpperByte (c : ascii) : bool :=
  (65 <=? nat_of_ascii c)%nat && (nat_of_ascii c <=? 90)%nat.

(** [c += 'a' - 'A'] for an upper-case byte, the byte itself otherwise. *)
Definition toLowerByte (c : ascii) : ascii :=
  if isUpperByte c then ascii_of_nat (nat_of_ascii c + 32) else c.

(** [c < utf8.RuneSelf] for every byte of [s]. *)
Fixpoint isASCII (s : string) : bool :=
  match s with
  | EmptyString => true
  | String c s' => (nat_of_ascii c <? 128)%nat && isASCII s'
  end.

Fixpoint mapBytes (f : ascii -> ascii) (s : string) : string :=
  match s with
  | EmptyString => EmptyString
  | String c s' => String (f c) (mapBytes f s')
  end.

Section ToLower.
(** [strings.ToLower] lowers an all-ASCII string byte by byte and hands
    any other string to [Map(unicode.ToLower, s)].  That second path
    belongs to Go's Unicode tables; it is kept abstract, so that every
    result below holds whatever it computes. *)
Variable unicodeToLower : string -> string.

Definition ToLower (s : string) : string :=
  if isASCII s then mapBytes toLowerByte s else unicodeToLower s.

(** Two strings differ in letter case at most when lowering makes
    them equal. *)
Definition sameUpToCase (a b : string) : Prop := ToLower a = ToLower b.
End ToLower.

(** Byte-wise comparison that takes an ASCII letter and its other case
    for the same byte. *)
Fixpoint equalFoldBytes (a b : string) : bool :=
  match a, b with
  | EmptyString, EmptyString => true
  | String x a', String y b' =>
      Ascii.eqb (toLowerByte x) (toLowerByte y) && equalFoldBytes a' b'
  | _, _ => false
  end.

(** [occurs c s]: the byte [c] is one of the bytes of [s]. *)
Fixpoint occurs (c : ascii) (s : string) : bool :=
  match s with
  | EmptyString => false
  | String a s' => Ascii.eqb a c || occurs c s'
  end.

(** [strings.HasPrefix(s, prefix)] *)
Fixpoint HasPrefix (s prefix : string) : bool :=
  match prefix, s with
  | EmptyString, _ => true
  | String _ _, EmptyString => false
  | String p prefix', String c s' => Ascii.eqb c p && HasPrefix s' prefix'
  end.

(** The slice expression [s[n:]]. *)
Fixpoint sliceFrom (n : nat) (s : string) : string :=
  match n, s with
  | O, _ => s
  | S _, EmptyString => EmptyString
  | S n', String _ s' => sliceFrom n' s'
  end.

(** [strings.TrimPrefix(s, prefix)]: [s] without the leading [prefix], or
    [s] itself when it does not start with [prefix]. *)
Definition TrimPrefix (s prefix : string) : string :=
  if HasPrefix s prefix then sliceFrom (String.length prefix) s else s.

(** [strings.Contains(s, substr)]: [substr] occurs at some offset of [s]. *)
Fixpoint Contains (s substr : string) : bool :=
  HasPrefix s substr ||
  match s with
  | EmptyString => false
  | String _ s' => Contains s' substr
  end.

(** [strings.Split(s, sep)] for a one-byte separator, the only kind the
    program passes ([sep = "\n"]).  The result is never empty: a string
    with [n] separators yields [n + 1] fields. *)
Fixpoint Split (s : string) (sep : ascii) : list string :=
  match s with
  | EmptyString => [EmptyString]
  | String c s' =>
      if Ascii.eqb c sep then EmptyString :: Split s' sep
      else match Split s' sep with
           | [] => [String c EmptyString]
           | field :: fields => String c field :: fields
           end
  end.

(** [strings.Join(elems, sep)] for a one-byte separator. *)
Fixpoint Join (elems : list string) (sep : ascii) : string :=
  match elems with
  | [] => EmptyString
  | [e] => e
  | e :: elems' => e +:+ String sep (Join elems' sep)
  end.

Fixpoint trimLeftByte (s : string) (c : ascii) : string :=
  match s with
  | EmptyString => EmptyString
  | String a s' => if Ascii.eqb a c then trimLeftByte s' c else s
  end.

Fixpoint trimRightByte (s : string) (c : ascii) : string :=
  match s with
  | EmptyString => EmptyString
  | String a s' =>
      match trimRightByte s' c with
      | EmptyString => if Ascii.eqb a c then EmptyString else String a EmptyString
      | r => String a r
      end
  end.

(** [strings.Trim(s, cutset)] for a cutset of one ASCII byte, which Go
    computes as [trimLeftByte(trimRightByte(s, c), c)]. *)
Definition Trim (s : string) (c : ascii) : string :=
  trimLeftByte (trimRightByte s c) c.

End strings.


(** ** Go maps used as counters, and gauge vectors *)

Module gomap.

(** [m[k]++] on a [map[string]float64]: a missing key reads as [0]. *)
Definition incr (k : string) (m : gmap string nat) : gmap string nat :=
  <[k := S (default 0 (m !! k))]> m.

(** The value read by [m[k]]. *)
Definition at_key (m : gmap string nat) (k : string) : nat :=
  default 0 (m !! k).

(** Sum of all the values held by a map. *)
Definition sumValues (m : gmap string nat) : nat :=
  map_fold (fun _ v acc => v + acc) 0 m.

(** [for k, v := range m { vec.WithLabelValues(k).Set(v) }], the entries
    being visited in the order [entries]: [WithLabelValues] creates the
    child gauge when it is missing and [Set] overwrites its value. *)
Definition rangeSet (entries : list (string * nat)) (vec : gmap string nat)
  : gmap string nat :=
  fold_left (fun v kc => <[fst kc := snd kc]> v) entries vec.

(** Go leaves the iteration order of [range] over a map unspecified: any
    enumeration of the entries may be the one that is visited. *)
Definition range_order (m : gmap string nat) (entries : list (string * nat)) : Prop :=
  Permutation entries (map_to_list m).

(** [for _, k := range keys { m[k]++ }]: the map after counting a list of
    keys into it. *)
Definition countFrom (m : gmap string nat) (keys : list string) : gmap string nat :=
  fold_left (fun m k => incr k m) keys m.

(** Number of times [k] stands in [keys]. *)
Definition occurrences (k : string) (keys : list string) : nat :=
  List.length (List.filter (String.eqb k) keys).

End gomap.

(** ** The workload records returned by the cluster API *)

Module corev1.

Record Container := mkContainer {
  ContainerName : string;      (* container.Name *)
  Image : string               (* container.Image *)
}.

Record Pod := mkPod {
  Namespace : string;          (* pod.Namespace *)
  Name : string;               (* pod.Name *)
  Containers : list Container  (* pod.Spec.Containers *)
}.

(** Number of containers over all the pods of a listing. *)
Definition containerCount (items : list Pod) : nat :=
  list_sum (map (fun pod => List.length (Containers pod)) items).

(** Number of pods of a listing that live in namespace [ns]. *)
Definition podsInNamespace (ns : string) (items : list Pod) : nat :=
  List.length (List.filter (fun pod => String.eqb (Namespace pod) ns) items).

(** The containers of a listing, pod after pod, in the order in which the
    two nested loops of [updateMetrics] meet them. *)
Definition allContainers (items : list Pod) : list Container :=
  flat_map Containers items.

(** Number of containers of a listing that run image [image]. *)
Definition containersWithImage (image : string) (items : list Pod) : nat :=
  List.length
    (List.filter (fun container => String.eqb (Image container) image)
                 (allContainers items)).

(** Result of [clientset.CoreV1().Pods("").List(...)]. *)
Inductive ListResult :=
| ListError
| ListOk (items : list Pod).

End corev1.

(** ** [src/discovery.go]: the variant with FIPS compliance *)

Module Discovery.
Import strings gomap corev1.

(** What the remote read of [/etc/os-release] can come to. *)
Inductive ExecOutcome :=
| ExecutorError                  (* remotecommand.NewSPDYExecutor fails *)
| StreamError (stderr : string)  (* exec.StreamWithContext fails *)
| StreamOk (stdout : string).    (* the command ran; captured stdout *)

(** The cluster as the program sees it through [clientset] and [config]:
    the answer to the list call, and the outcome of the exec request for
    (namespace, pod, container) issued as the [n]-th remote command of a
    cycle. *)
Record Clientset := mkClientset {
  ListPods : ListResult;
  Exec : nat -> string -> string -> string -> ExecOutcome
}.

(** The four registered metrics: three gauge vectors keyed by their one
    label value, and one plain gauge. *)
Record Gauges := mkGauges {
  podsPerNamespace : gmap string nat;
  containerImageCount : gmap string nat;
  containerBaseImageType : gmap string nat;
  containersFipsCompliant : nat
}.

(** The local variables of [updateMetrics] while it walks the listing,
    with the number of remote commands issued so far. *)
Record Tally := mkTally {
  namespaceMap : gmap string nat;
  imageMap : gmap string nat;
  baseTypeMap : gmap string nat;
  fipsCount : nat;
  execCalls : nat
}.

Section Program.
Variable unicodeToLower : string -> string.
Local Abbreviation ToLower := (strings.ToLower unicodeToLower).

(** The [switch] of [parseOsRelease] on the trimmed value. *)
Definition baseTypeOf (value : string) : string :=
  if Contains value "debian" then "Debian"
  else if Contains value "alpine" then "Alpine"
  else if Contains value "centos" || Contains value "rhel" || Contains value "ubi"
  then "RHEL"
  else if Contains value "wolfi" then "Chainguard"
  else "Other".

(** The [for _, line := range lines] loop of [parseOsRelease]. *)
Fixpoint parseOsRelease_lines (lines : list string) : string :=
  match lines with
  | [] => "Unknown"
  | line :: lines' =>
      let lowerLine := ToLower line in
      if HasPrefix lowerLine "id=" || HasPrefix lowerLine "name=" then
        let value := TrimPrefix lowerLine "id=" in
        let value := TrimPrefix value "name=" in
        let value := Trim value dquote in
        baseTypeOf value
      else parseOsRelease_lines lines'
  end.

Definition parseOsRelease (content : string) : string :=
  parseOsRelease_lines (Split content newline).

(** The test that makes the loop of [parseOsRelease] stop at a line. *)
Definition hasIdentityPrefix (line : string) : bool :=
  HasPrefix (ToLower line) "id=" || HasPrefix (ToLower line) "name=".

(** The string literals that [parseOsRelease] returns. *)
Definition baseTypeTags : list string :=
  ["Debian"; "Alpine"; "RHEL"; "Chainguard"; "Other"; "Unknown"].

Definition fipsIndicators : list string :=
  ["fips"; "ubi8-fips"; "debian:fips"; "chainguard:fips"].

Definition isFipsFromImageName (image : string) : bool :=
  let lowerImage := ToLower image in
  existsb (fun indicator => Contains lowerImage indicator) fipsIndicators.

Definition isFipsCompliant (osRelease image : string) : bool :=
  let lowerOsRelease := ToLower osRelease in
  if Contains lowerOsRelease "fips_mode=yes" || Contains lowerOsRelease "fips=1"
  then true
  else isFipsFromImageName image.

(** [getContainerDetails], as the [call]-th remote command of the cycle. *)
Definition getContainerDetails (clientset : Clientset) (call : nat)
           (pod : Pod) (container : Container) : string * bool :=
  match Exec clientset call (Namespace pod) (Name pod) (ContainerName container) with
  | ExecutorError => ("Unknown", false)
  | StreamError _ => ("Unknown", isFipsFromImageName (Image container))
  | StreamOk osRelease =>
      (parseOsRelease osRelease, isFipsCompliant osRelease (Image container))
  end.

(** Body of the inner loop, over the containers of one pod. *)
Definition tallyContainer (clientset : Clientset) (pod : Pod)
           (t : Tally) (container : Container) : Tally :=
  let details := getContainerDetails clientset (execCalls t) pod container in
  {| namespaceMap := namespaceMap t;
     imageMap := incr (Image container) (imageMap t);
     baseTypeMap := incr (fst details) (baseTypeMap t);
     fipsCount := if snd details then S (fipsCount t) else fipsCount t;
     execCalls := S (execCalls t) |}.

(** Body of the outer loop, over the pods of the listing. *)
Definition tallyPod (clientset : Clientset) (t : Tally) (pod : Pod) : Tally :=
  fold_left (tallyContainer clientset pod) (Containers pod)
    {| namespaceMap := incr (Namespace pod) (namespaceMap t);
       imageMap := imageMap t;
       baseTypeMap := baseTypeMap t;
       fipsCount := fipsCount t;
       execCalls := execCalls t |}.

(** The maps are made afresh at every call of [updateMetrics]. *)
Definition emptyTally : Tally :=
  {| namespaceMap := ∅; imageMap := ∅; baseTypeMap := ∅;
     fipsCount := 0; execCalls := 0 |}.

Definition tally (clientset : Clientset) (items : list Pod) : Tally :=
  fold_left (tallyPod clientset) items emptyTally.

(** [Reset()] on the three vectors and [Set(0)] on the plain gauge. *)
Definition resetGauges (g : Gauges) : Gauges :=
  {| podsPerNamespace := ∅; containerImageCount := ∅;
     containerBaseImageType := ∅; containersFipsCompliant := 0 |}.

(** The three [range] loops and the final [Set(fipsCount)], the maps
    being visited in the given orders. *)
Definition publish (nsOrder imgOrder btOrder : list (string * nat))
           (fips : nat) (g : Gauges) : Gauges :=
  {| podsPerNamespace := rangeSet nsOrder (podsPerNamespace g);
     containerImageCount := rangeSet imgOrder (containerImageCount g);
     containerBaseImageType := rangeSet btOrder (containerBaseImageType g);
     containersFipsCompliant := fips |}.

(** One call of [updateMetrics], visiting each map in the order of
    [map_to_list]. *)
Definition updateMetrics (clientset : Clientset) (g : Gauges) : Gauges :=
  match ListPods clientset with
  | ListError => g
  | ListOk items =>
      let g := resetGauges g in
      let t := tally clientset items in
      publish (map_to_list (namespaceMap t)) (map_to_list (imageMap t))
              (map_to_list (baseTypeMap t)) (fipsCount t) g
  end.

(** One call of [updateMetrics] with the iteration orders left to the
    runtime: [updateMetrics_run clientset g g'] when the call can turn
    the published gauges [g] into [g']. *)
Inductive updateMetrics_run (clientset : Clientset) (g : Gauges) : Gauges -> Prop :=
| run_list_failed :
    ListPods clientset = ListError ->
    updateMetrics_run clientset g g
| run_published items nsOrder imgOrder btOrder :
    ListPods clientset = ListOk items ->
    range_order (namespaceMap (tally clientset items)) nsOrder ->
    range_order (imageMap (tally clientset items)) imgOrder ->
    range_order (baseTypeMap (tally clientset items)) btOrder ->
    updateMetrics_run clientset g
      (publish nsOrder imgOrder btOrder (fipsCount (tally clientset items))
               (resetGauges g)).

(** The aggregate of a cycle as it is handed to the gauges. *)
Definition snapshot (clientset : Clientset) (items : list Pod) : Gauges :=
  let t := tally clientset items in
  {| podsPerNamespace := namespaceMap t;
     containerImageCount := imageMap t;
     containerBaseImageType := baseTypeMap t;
     containersFipsCompliant := fipsCount t |}.

(** The answers of [getContainerDetails] for the containers of one pod,
    the first of them being the [call]-th remote command of the cycle. *)
Fixpoint podDetails (clientset : Clientset) (call : nat) (pod : Pod)
         (containers : list Container) : list (string * bool) :=
  match containers with
  | [] => []
  | container :: containers' =>
      getContainerDetails clientset call pod container
      :: podDetails clientset (S call) pod containers'
  end.

(** The answers of [getContainerDetails] over a whole listing, in the
    order of the two nested loops. *)
Fixpoint listingDetails (clientset : Clientset) (call : nat)
         (items : list Pod) : list (string * bool) :=
  match items with
  | [] => []
  | pod :: items' =>
      podDetails clientset call pod (Containers pod)
      ++ listingDetails clientset (call + List.length (Containers pod)) items'
  end.

(** The gauges as [main] registers them, before the first cycle: no label
    in any vector, [0] in the plain gauge. *)
Definition registered : Gauges :=
  {| podsPerNamespace := ∅; containerImageCount := ∅;
     containerBaseImageType := ∅; containersFipsCompliant := 0 |}.

(** The [for] loop of [main], cut after the iterations of [ticks]: one
    call of [updateMetrics] per iteration, the cluster answering at each
    iteration as that element of [ticks] says.  [time.Sleep] only spaces
    the iterations. *)
Definition mainLoop (ticks : list Clientset) (g : Gauges) : Gauges :=
  fold_left (fun g clientset => updateMetrics clientset g) ticks g.

(** The same iterations with the order of every [range] left to the
    runtime. *)
Inductive mainLoop_run : list Clientset -> Gauges -> Gauges -> Prop :=
| loop_done g : mainLoop_run [] g g
| loop_tick clientset ticks g g1 g' :
    updateMetrics_run clientset g g1 ->
    mainLoop_run ticks g1 g' ->
    mainLoop_run (clientset :: ticks) g g'.

(** The last iteration of [ticks] whose list call succeeded, with the
    pods it listed. *)
Fixpoint lastListing (ticks : list Clientset) : option (Clientset * list Pod) :=
  match ticks with
  | [] => None
  | clientset :: ticks' =>
      match lastListing ticks' with
      | Some found => Some found
      | None =>
          match ListPods clientset with
          | ListOk items => Some (clientset, items)
          | ListError => None
          end
      end
  end.

End Program.
End Discovery.

(** ** The structured-logging variant (no compliance gauge) *)

Module Slog.
Import strings gomap corev1.

(** What the remote read of [/etc/os-release] can come to. *)
Inductive ExecOutcome :=
| StreamError                  (* ...SubResource("exec")...Stream(ctx) fails *)
| ReadError                    (* output.ReadFrom(exec) fails *)
| Output (content : string).   (* the bytes read from the stream *)

Record Clientset := mkClientset {
  ListPods : ListResult;
  Exec : nat -> string -> string -> string -> ExecOutcome
}.

(** The three registered gauge vectors. *)
Record Gauges := mkGauges {
  podsPerNamespace : gmap string nat;
  containerImageCount : gmap string nat;
  containerBaseImageType : gmap string nat
}.

Record Tally := mkTally {
  namespaceMap : gmap string nat;
  imageMap : gmap string nat;
  baseImageTypeMap : gmap string nat;
  execCalls : nat
}.

Section Program.
Variable unicodeToLower : string -> string.
Local Abbreviation ToLower := (strings.ToLower unicodeToLower).

(** The [switch id] of [parseOsRelease]: exact comparisons. *)
Definition baseTypeOf (id : string) : string :=
  if String.eqb id "debian" then "debian"
  else if String.eqb id "ubuntu" then "ubuntu"
  else if String.eqb id "alpine" then "alpine"
  else if String.eqb id "centos" || String.eqb id "rhel" || String.eqb id "fedora"
  then id
  else "other".

Fixpoint parseOsRelease_lines (lines : list string) : string :=
  match lines with
  | [] => "unknown"
  | line :: lines' =>
      let lowerLine := ToLower line in
      if HasPrefix lowerLine "id=" then
        let id := Trim (TrimPrefix lowerLine "id=") dquote in
        baseTypeOf id
      else parseOsRelease_lines lines'
  end.

Definition parseOsRelease (content : string) : string :=
  parseOsRelease_lines (Split content newline).

(** The test that makes the loop of [parseOsRelease] stop at a line. *)
Definition hasIdentityPrefix (line : string) : bool :=
  HasPrefix (ToLower line) "id=".

(** The strings that [parseOsRelease] returns. *)
Definition baseTypeTags : list string :=
  ["debian"; "ubuntu"; "alpine"; "centos"; "rhel"; "fedora"; "other"; "unknown"].

Definition getBaseImageType (clientset : Clientset) (call : nat)
           (namespace podName containerName : string) : string :=
  match Exec clientset call namespace podName containerName with
  | StreamError => "unknown"
  | ReadError => "unknown"
  | Output content => parseOsRelease content
  end.

Definition tallyContainer (clientset : Clientset) (pod : Pod)
           (t : Tally) (container : Container) : Tally :=
  let baseType :=
    getBaseImageType clientset (execCalls t)
                     (Namespace pod) (Name pod) (ContainerName container) in
  {| namespaceMap := namespaceMap t;
     imageMap := incr (Image container) (imageMap t);
     baseImageTypeMap := incr baseType (baseImageTypeMap t);
     execCalls := S (execCalls t) |}.

Definition tallyPod (clientset : Clientset) (t : Tally) (pod : Pod) : Tally :=
  fold_left (tallyContainer clientset pod) (Containers pod)
    {| namespaceMap := incr (Namespace pod) (namespaceMap t);
       imageMap := imageMap t;
       baseImageTypeMap := baseImageTypeMap t;
       execCalls := execCalls t |}.

Definition emptyTally : Tally :=
  {| namespaceMap := ∅; imageMap := ∅; baseImageTypeMap := ∅; execCalls := 0 |}.

Definition tally (clientset : Clientset) (items : list Pod) : Tally :=
  fold_left (tallyPod clientset) items emptyTally.

Definition resetGauges (g : Gauges) : Gauges :=
  {| podsPerNamespace := ∅; containerImageCount := ∅;
     containerBaseImageType := ∅ |}.

Definition publish (nsOrder imgOrder btOrder : list (string * nat))
           (g : Gauges) : Gauges :=
  {| podsPerNamespace := rangeSet nsOrder (podsPerNamespace g);
     containerImageCount := rangeSet imgOrder (containerImageCount g);
     containerBaseImageType := rangeSet btOrder (containerBaseImageType g) |}.

Definition updateMetrics (clientset : Clientset) (g : Gauges) : Gauges :=
  match ListPods clientset with
  | ListError => g
  | ListOk items =>
      let g := resetGauges g in
      let t := tally clientset items in
      publish (map_to_list (namespaceMap t)) (map_to_list (imageMap t))
              (map_to_list (baseImageTypeMap t)) g
  end.

Inductive updateMetrics_run (clientset : Clientset) (g : Gauges) : Gauges -> Prop :=
| run_list_failed :
    ListPods clientset = ListError ->
    updateMetrics_run clientset g g
| run_published items nsOrder imgOrder btOrder :
    ListPods clientset = ListOk items ->
    range_order (namespaceMap (tally clientset items)) nsOrder ->
    range_order (imageMap (tally clientset items)) imgOrder ->
    range_order (baseImageTypeMap (tally clientset items)) btOrder ->
    updateMetrics_run clientset g
      (publish nsOrder imgOrder btOrder (resetGauges g)).

(** The aggregate of a cycle as it is handed to the gauges. *)
Definition snapshot (clientset : Clientset) (items : list Pod) : Gauges :=
  let t := tally clientset items in
  {| podsPerNamespace := namespaceMap t;
     containerImageCount := imageMap t;
     containerBaseImageType := baseImageTypeMap t |}.

End Program.
End Slog.

(** ** The program printed in [README.md]

    It is [src/discovery.go] but for the [switch] of [parseOsRelease],
    which has a rule for Ubuntu and looks for [chainguard] where
    [src/discovery.go] looks for [wolfi]. *)

Module Readme.
Import strings.

Section Program.
Variable unicodeToLower : string -> string.
Local Abbreviation ToLower := (strings.ToLower unicodeToLower).

Definition baseTypeOf (value : string) : string :=
  if Contains value "debian" then "Debian"
  else if Contains value "ubuntu" then "Ubuntu"
  else if Contains value "alpine" then "Alpine"
  else if Contains value "centos" || Contains value "rhel" || Contains value "ubi"
  then "RHEL"
  else if Contains value "chainguard" then "Chainguard"
  else "Other".

Fixpoint parseOsRelease_lines (lines : list string) : string :=
  match lines with
  | [] => "Unknown"
  | line :: lines' =>
      let lowerLine := ToLower line in
      if HasPrefix lowerLine "id=" || HasPrefix lowerLine "name=" then
        let value := TrimPrefix lowerLine "id=" in
        let value := TrimPrefix value "name=" in
        let value := Trim value dquote in
        baseTypeOf value
      else parseOsRelease_lines lines'
  end.

Definition parseOsRelease (content : string) : string :=
  parseOsRelease_lines (Split content newline).

End Program.
End Readme.

(** ** The first program of the repository: image counts and a per-pod
    FIPS gauge, from image names alone *)

Module FirstDraft.
Import strings gomap corev1.

(** The two registered vectors: [container_image_count] by image, and
    [workload_fips_enabled] by namespace and pod name. *)
Record Gauges := mkGauges {
  imageCount : gmap string nat;
  fipsEnabled : gmap (string * string) nat
}.

(** The variables of the inner loop: the image map and the [isFips] flag
    of the pod being walked. *)
Record PodScan := mkPodScan {
  imageMap : gmap string nat;
  isFips : bool
}.

Section Program.
Variable unicodeToLower : string -> string.
Local Abbreviation ToLower := (strings.ToLower unicodeToLower).

Definition isFipsImage (image : string) : bool :=
  Contains (ToLower image) "fips".

(** Body of the loop over the containers of a pod. *)
Definition scanContainer (s : PodScan) (container : Container) : PodScan :=
  let image := Image container in
  {| imageMap := <[image := at_key (imageMap s) image + 1]> (imageMap s);
     isFips := if Contains (ToLower image) "fips" then true else isFips s |}.

(** Body of the loop over the pods: walk the containers with [isFips]
    starting at [false], then set the gauge of the pod to [1] or [0]. *)
Definition scanPod (st : gmap string nat * gmap (string * string) nat)
           (pod : Pod) : gmap string nat * gmap (string * string) nat :=
  let s := fold_left scanContainer (Containers pod)
                     {| imageMap := fst st; isFips := false |} in
  let fipsValue := if isFips s then 1 else 0 in
  (imageMap s, <[(Namespace pod, Name pod) := fipsValue]> (snd st)).

(** The gauge value of a pod as a function of its containers: [1] when
    some image reference holds [fips], [0] otherwise. *)
Definition fipsValueOf (pod : Pod) : nat :=
  if existsb isFipsImage (map Image (Containers pod)) then 1 else 0.

(** One call of [updateMetrics], the image map being visited in the
    order of [map_to_list]. *)
Definition updateMetrics (listing : ListResult) (g : Gauges) : Gauges :=
  match listing with
  | ListError => g
  | ListOk items =>
      let st := fold_left scanPod items (∅, ∅) in
      {| imageCount := rangeSet (map_to_list (fst st)) ∅;
         fipsEnabled := snd st |}
  end.

(** The same call with the order of the [range] left to the runtime. *)
Inductive updateMetrics_run (listing : ListResult) (g : Gauges) : Gauges -> Prop :=
| run_list_failed :
    listing = ListError ->
    updateMetrics_run listing g g
| run_published items imgOrder :
    listing = ListOk items ->
    range_order (fst (fold_left scanPod items (∅, ∅))) imgOrder ->
    updateMetrics_run listing g
      {| imageCount := rangeSet imgOrder ∅;
         fipsEnabled := snd (fold_left scanPod items (∅, ∅)) |}.

End Program.
End FirstDraft.

(** ** The classifier as the specification words it *)

Module ClassifierSpec.
Import strings.

(** Key and value of a line: the text before its first ['='] and the text
    after it; [None] for a line without ['=']. *)
Fixpoint keyValue (line : string) : option (string * string) :=
  match line with
  | EmptyString => None
  | String c rest =>
      if Ascii.eqb c "="%char then Some (EmptyString, rest)
      else match keyValue rest with
           | Some (key, value) => Some (String c key, value)
           | None => None
           end
  end.

(** The identity fields. *)
Definition identityFields : list string := ["id"; "name"].

(** The ordered substring rules: pattern, canonical tag. *)
Definition rules : list (string * string) :=
  [("debian", "Debian"); ("alpine", "Alpine"); ("centos", "RHEL");
   ("rhel", "RHEL"); ("ubi", "RHEL"); ("wolfi", "Chainguard")].

(** First rule whose pattern occurs in the value; ["Other"] when none does. *)
Definition applyRules (value : string) : string :=
  match find (fun rule => Contains value (fst rule)) rules with
  | Some rule => snd rule
  | None => "Other"
  end.

(** A value without the double quote that opens it and the one that
    closes it, when they are there. *)
Definition dropOpeningQuote (value : string) : string :=
  match value with
  | String c rest => if Ascii.eqb c dquote then rest else value
  | EmptyString => EmptyString
  end.

Fixpoint dropClosingQuote (value : string) : string :=
  match value with
  | EmptyString => EmptyString
  | String c EmptyString => if Ascii.eqb c dquote then EmptyString else value
  | String c rest => String c (dropClosingQuote rest)
  end.

Definition unquote (value : string) : string :=
  dropClosingQuote (dropOpeningQuote value).

Section Spec.
Variable unicodeToLower : string -> string.
Local Abbreviation ToLower := (strings.ToLower unicodeToLower).

(** A line is an identity line when, letter case set aside, the key
    before its ['='] is one of the identity fields. *)
Definition isIdentityLine (line : string) : bool :=
  match keyValue (ToLower line) with
  | Some (key, _) => existsb (String.eqb key) identityFields
  | None => false
  end.

(** The value of a line, letter case set aside. *)
Definition valueOf (line : string) : string :=
  match keyValue (ToLower line) with
  | Some (_, value) => value
  | None => EmptyString
  end.

(** First identity line of the content, in line order; its unquoted
    value through the rules; ["Unknown"] without an identity line. *)
Definition baseType (content : string) : string :=
  match find isIdentityLine (Split content newline) with
  | Some line => applyRules (unquote (valueOf line))
  | None => "Unknown"
  end.

(** The other variant, in the same words: the only identity field is
    [id]; the value, without the double quotes around it, is compared for
    equality with the known distributions and is its own tag when it is
    one of them; ["other"] otherwise, ["unknown"] without an identity
    line. *)
Definition knownDistributions : list string :=
  ["debian"; "ubuntu"; "alpine"; "centos"; "rhel"; "fedora"].

Definition isIdLine (line : string) : bool :=
  match keyValue (ToLower line) with
  | Some (key, _) => String.eqb key "id"
  | None => false
  end.

Definition baseTypeExact (content : string) : string :=
  match find isIdLine (Split content newline) with
  | Some line =>
      let value := Trim (valueOf line) dquote in
      if existsb (String.eqb value) knownDistributions then value else "other"
  | None => "unknown"
  end.

(** The content carries an explicit compliance marker, letter case set
    aside. *)
Definition complianceMarkers : list string := ["fips_mode=yes"; "fips=1"].

Definition hasComplianceMarker (content : string) : bool :=
  existsb (fun marker => Contains (ToLower content) marker) complianceMarkers.

End Spec.
End ClassifierSpec.

(** The examples below run on ASCII inputs only, where the Unicode path of
    [strings.ToLower] is never taken; this stand-in fills its place. *)
Definition asciiOnly (s : string) : string := s.

(** The content [ID="ubuntu"\nNAME="Ubuntu"]. *)
Definition ubuntuRelease : string :=
  "ID=" +:+ String strings.dquote "ubuntu" +:+ String strings.dquote EmptyString
  +:+ String strings.newline "NAME=" +:+ String strings.dquote "Ubuntu"
  +:+ String strings.dquote EmptyString.

(** A content of three lines: [PRETTY=x], [NAME=Alpine Linux], [ID=debian]. *)
Definition alpineRelease : string :=
  "PRETTY=x" +:+ String strings.newline "NAME=Alpine Linux"
  +:+ String strings.newline "ID=debian".

(** A pod with one container whose image reference names a FIPS build. *)
Definition fipsContainer : corev1.Container :=
  corev1.mkContainer "app" "registry/app-fips:2.0".

Definition fipsPod : corev1.Pod := corev1.mkPod "default" "web" [fipsContainer].

(** A cluster where no executor can be created, and one where the executor
    is created and the stream then fails. *)
Definition noExecutor : Discovery.Clientset :=
  Discovery.mkClientset (corev1.ListOk [fipsPod])
    (fun _ _ _ _ => Discovery.ExecutorError).

Definition brokenStream : Discovery.Clientset :=
  Discovery.mkClientset (corev1.ListOk [fipsPod])
    (fun _ _ _ _ => Discovery.StreamError "cat: /etc/os-release: No such file").

(** A cluster whose list call fails, for each variant. *)
Definition unreachable : Discovery.Clientset :=
  Discovery.mkClientset corev1.ListError (fun _ _ _ _ => Discovery.ExecutorError).

Definition unreachableSlog : Slog.Clientset :=
  Slog.mkClientset corev1.ListError (fun _ _ _ _ => Slog.StreamError).

(** A cluster with one Alpine pod in namespace [batch]. *)
Definition alpinePod : corev1.Pod :=
  corev1.mkPod "batch" "job-1" [corev1.mkContainer "main" "alpine:3.19"].

Definition alpineCluster : Discovery.Clientset :=
  Discovery.mkClientset (corev1.ListOk [alpinePod])
    (fun _ _ _ _ => Discovery.StreamOk "ID=alpine").

(** A cluster with one pod whose container holds [ubuntuRelease]. *)
Definition ubuntuContainer : corev1.Container :=
  corev1.mkContainer "app" "myregistry/app:1.0".

Definition ubuntuPod : corev1.Pod := corev1.mkPod "default" "app-0" [ubuntuContainer].

Definition ubuntuCluster : Discovery.Clientset :=
  Discovery.mkClientset (corev1.ListOk [ubuntuPod])
    (fun _ _ _ _ => Discovery.StreamOk ubuntuRelease).

(** Gauges left by some earlier cycle. *)
Definition earlierGauges : Discovery.Gauges :=
  Discovery.mkGauges {["kube-system" := 7]} {["pause:3.9" := 7]} {["Other" := 7]} 2.

Definition earlierGaugesSlog : Slog.Gauges :=
  Slog.mkGauges {["kube-system" := 7]} {["pause:3.9" := 7]} {["other" := 7]}.

(** A cluster that lists no pod at all, and the Alpine cluster as the
    variant with lowercase tags sees it. *)
Definition emptyCluster : Discovery.Clientset :=
  Discovery.mkClientset (corev1.ListOk []) (fun _ _ _ _ => Discovery.ExecutorError).

Definition alpineClusterSlog : Slog.Clientset :=
  Slog.mkClientset (corev1.ListOk [alpinePod]) (fun _ _ _ _ => Slog.Output "ID=alpine").

Definition earlierGaugesFirstDraft : FirstDraft.Gauges :=
  FirstDraft.mkGauges {["pause:3.9" := 7]} {[("kube-system", "dns") := 0]}.

(** ** Two letters outside ASCII

    U+017F, LATIN SMALL LETTER LONG S, is written in UTF-8 as the two
    bytes C5 BF.  In Go's tables it is a lower-case letter whose upper
    case is [S]: [unicode.ToLower] returns it as it is and
    [unicode.ToUpper] returns U+0053. *)

Module unicode.
Import strings.

Definition longS : string := String "197"%char (String "191"%char EmptyString).

(** ['a' <= c && c <= 'z'] gives [c -= 'a' - 'A']. *)
Definition toUpperByte (c : ascii) : ascii :=
  if (97 <=? nat_of_ascii c)%nat && (nat_of_ascii c <=? 122)%nat
  then ascii_of_nat (nat_of_ascii c - 32) else c.

(** [Map(unicode.ToLower, s)] on a valid UTF-8 string whose letters
    outside ASCII are lower-case letters already, such as U+017F: the
    ASCII letters are lowered and every other byte is kept. *)
Definition lowerKeepingOthers (s : string) : string :=
  mapBytes toLowerByte s.

(** [strings.ToUpper] on a string whose only letter outside ASCII is
    U+017F: the ASCII letters are raised and U+017F becomes [S]. *)
Fixpoint upperWithLongS (s : string) : string :=
  match s with
  | EmptyString => EmptyString
  | String c rest =>
      match rest with
      | String c' rest' =>
          if Ascii.eqb c "197"%char && Ascii.eqb c' "191"%char
          then String "S"%char (upperWithLongS rest')
          else String (toUpperByte c) (upperWithLongS rest)
      | EmptyString => String (toUpperByte c) EmptyString
      end
  end.

End unicode.

(** * Properties *)

(** ** Byte strings *)

Section StringFacts.
Import strings.

Lemma append_assoc (a b c : string) : (a +:+ b) +:+ c = a +:+ (b +:+ c).
Proof. induction a as [|x a IH]; simpl; [done|by rewrite IH]. Qed.

Lemma HasPrefix_empty s : HasPrefix s EmptyString = true.
Proof. by destruct s. Qed.

Lemma HasPrefix_append p r : HasPrefix (p +:+ r) p = true.
Proof.
  induction p as [|a p IH]; simpl; [apply HasPrefix_empty|].
  by rewrite Ascii.eqb_refl, IH.
Qed.

Lemma HasPrefix_inv s p :
  HasPrefix s p = true -> s = p +:+ sliceFrom (String.length p) s.
Proof.
  revert s; induction p as [|a p IH]; intros s H; [done|].
  destruct s as [|c s]; [done|]. simpl in *.
  apply andb_true_iff in H as [Hc Hp]. apply Ascii.eqb_eq in Hc as ->.
  change (String a s = String a (p +:+ sliceFrom (String.length p) s)).
  f_equal. by apply IH.
Qed.

Lemma sliceFrom_append p r : sliceFrom (String.length p) (p +:+ r) = r.
Proof. by induction p. Qed.

Lemma TrimPrefix_append p r : TrimPrefix (p +:+ r) p = r.
Proof. unfold TrimPrefix. by rewrite HasPrefix_append, sliceFrom_append. Qed.

Lemma TrimPrefix_absent s p : HasPrefix s p = false -> TrimPrefix s p = s.
Proof. unfold TrimPrefix. by intros ->. Qed.

Lemma Contains_HasPrefix s p : HasPrefix s p = true -> Contains s p = true.
Proof. intros H. destruct s; cbn [Contains]; by rewrite H. Qed.

(** [Contains] is the substring relation. *)
Lemma Contains_iff s sub :
  Contains s sub = true <-> exists front back, s = front +:+ sub +:+ back.
Proof.
  split.
  - induction s as [|c s IH]; cbn [Contains]; intros H.
    + rewrite orb_false_r in H. apply HasPrefix_inv in H.
      exists EmptyString. eexists. exact H.
    + apply orb_true_iff in H as [H|H].
      * apply HasPrefix_inv in H. exists EmptyString. eexists. exact H.
      * destruct (IH H) as (front & back & ->).
        by exists (String c front), back.
  - intros (front & back & ->).
    induction front as [|c front IH]; simpl.
    + change (Contains (sub +:+ back) sub = true).
      apply Contains_HasPrefix, HasPrefix_append.
    + by rewrite IH, orb_true_r.
Qed.

(** A pattern that avoids the byte [c] is found neither sooner nor later
    when bytes [c] are taken off either end of the string. *)
Lemma HasPrefix_head_absent c s p :
  occurs c p = false -> p <> EmptyString -> HasPrefix (String c s) p = false.
Proof.
  destruct p as [|a p]; [done|]. simpl. intros H _.
  apply orb_false_iff in H as [H _].
  rewrite Ascii.eqb_sym in H. by rewrite H.
Qed.

Lemma Contains_trimLeftByte c s p :
  occurs c p = false -> p <> EmptyString ->
  Contains (trimLeftByte s c) p = Contains s p.
Proof.
  intros Hc Hp. induction s as [|a s IH]; [done|].
  cbn [trimLeftByte]. destruct (Ascii.eqb a c) eqn:E; [|done].
  apply Ascii.eqb_eq in E as ->. rewrite IH. cbn [Contains].
  by rewrite (HasPrefix_head_absent c s p Hc Hp).
Qed.

Lemma trimRightByte_empty c s p :
  trimRightByte s c = EmptyString ->
  occurs c p = false -> p <> EmptyString -> HasPrefix s p = false.
Proof.
  intros Ht Hc Hp. destruct s as [|a s]; [by destruct p|].
  simpl in Ht. destruct (trimRightByte s c); [|done].
  destruct (Ascii.eqb a c) eqn:E; [|done].
  apply Ascii.eqb_eq in E as ->. by apply HasPrefix_head_absent.
Qed.

Lemma HasPrefix_trimRightByte c s p :
  occurs c p = false -> p <> EmptyString ->
  HasPrefix (trimRightByte s c) p = HasPrefix s p.
Proof.
  revert s. induction p as [|b p IH]; intros s Hc Hp; [done|].
  simpl in Hc. apply orb_false_iff in Hc as [Hb Hc].
  destruct s as [|a s]; [done|]. cbn [trimRightByte].
  destruct (trimRightByte s c) as [|r0 r] eqn:Er.
  - assert (Hs : HasPrefix s p = HasPrefix EmptyString p).
    { destruct p as [|b' p]; [by destruct s|].
      by apply (trimRightByte_empty c). }
    destruct (Ascii.eqb a c) eqn:E; cbn [HasPrefix].
    + apply Ascii.eqb_eq in E as ->.
      rewrite Ascii.eqb_sym in Hb. by rewrite Hb.
    + by rewrite Hs.
  - rewrite <- Er. cbn [HasPrefix]. f_equal.
    destruct p as [|b' p]; [by rewrite !HasPrefix_empty|].
    by apply IH.
Qed.

Lemma Contains_trimRightByte c s p :
  occurs c p = false -> p <> EmptyString ->
  Contains (trimRightByte s c) p = Contains s p.
Proof.
  intros Hc Hp. induction s as [|a s IH]; [done|].
  change (Contains (String a s) p) with (HasPrefix (String a s) p || Contains s p).
  rewrite <- (HasPrefix_trimRightByte c (String a s) p Hc Hp), <- IH.
  cbn [trimRightByte]. destruct (trimRightByte s c) as [|r0 r] eqn:Er.
  - destruct (Ascii.eqb a c); simpl; [by destruct p|].
    destruct p; [done|]. simpl. by rewrite !orb_false_r.
  - done.
Qed.

Lemma Contains_Trim c s p :
  occurs c p = false -> p <> EmptyString ->
  Contains (Trim s c) p = Contains s p.
Proof.
  intros Hc Hp. unfold Trim.
  by rewrite Contains_trimLeftByte, Contains_trimRightByte.
Qed.

Lemma HasPrefix_snoc c s p :
  occurs c p = false -> p <> EmptyString ->
  HasPrefix (s +:+ String c EmptyString) p = HasPrefix s p.
Proof.
  revert s. induction p as [|b p IH]; intros s Hc Hp; [done|].
  simpl in Hc. apply orb_false_iff in Hc as [Hb Hc].
  destruct s as [|a s].
  - cbn [HasPrefix String.append]. rewrite Ascii.eqb_sym in Hb. by rewrite Hb.
  - change (String a s +:+ String c EmptyString)
      with (String a (s +:+ String c EmptyString)).
    cbn [HasPrefix]. f_equal.
    destruct p as [|b' p]; [by rewrite !HasPrefix_empty|]. by apply IH.
Qed.

Lemma Contains_snoc c s p :
  occurs c p = false -> p <> EmptyString ->
  Contains (s +:+ String c EmptyString) p = Contains s p.
Proof.
  intros Hc Hp. induction s as [|a s IH].
  - cbn [String.append Contains].
    rewrite (HasPrefix_head_absent c EmptyString p Hc Hp).
    by destruct p.
  - change (String a s +:+ String c EmptyString)
      with (String a (s +:+ String c EmptyString)).
    cbn [Contains].
    change (String a (s +:+ String c EmptyString))
      with (String a s +:+ String c EmptyString).
    by rewrite HasPrefix_snoc, IH.
Qed.

(** Fields and separators. *)
Lemma Split_not_nil s sep : Split s sep <> [].
Proof.
  destruct s as [|c s]; [done|]. simpl.
  destruct (Ascii.eqb c sep); [done|]. by destruct (Split s sep).
Qed.

Lemma Split_no_sep s sep : occurs sep s = false -> Split s sep = [s].
Proof.
  induction s as [|c s IH]; [done|]. simpl. intros H.
  apply orb_false_iff in H as [-> H]. by rewrite IH.
Qed.

Lemma Split_fields s sep :
  Forall (fun field => occurs sep field = false) (Split s sep).
Proof.
  induction s as [|c s IH]; simpl.
  - by constructor.
  - destruct (Ascii.eqb c sep) eqn:E; [by constructor|].
    destruct (Split s sep) as [|f fs]; [by repeat constructor; simpl; rewrite E|].
    inversion IH; subst. constructor; [|done]. simpl. by rewrite E.
Qed.

Lemma Split_field_sep field rest sep :
  occurs sep field = false ->
  Split (field +:+ String sep rest) sep = field :: Split rest sep.
Proof.
  induction field as [|c field IH]; simpl; intros H.
  - by rewrite Ascii.eqb_refl.
  - apply orb_false_iff in H as [-> H]. by rewrite IH.
Qed.

(** Splitting what [Join] assembled gives the fields back. *)
Lemma Split_Join fields sep :
  fields <> [] ->
  Forall (fun field => occurs sep field = false) fields ->
  Split (Join fields sep) sep = fields.
Proof.
  induction fields as [|f fs IH]; [done|]. intros _ H.
  inversion H as [|? ? Hf Hfs]; subst.
  destruct fs as [|f' fs]; [by apply Split_no_sep|].
  cbn [Join]. rewrite Split_field_sep by done. f_equal. by apply IH.
Qed.

(** Joining the fields of a string gives the string back. *)
Lemma Join_Split s sep : Join (Split s sep) sep = s.
Proof.
  induction s as [|c s IH]; [done|]. simpl.
  pose proof (Split_not_nil s sep) as Hne.
  destruct (Ascii.eqb c sep) eqn:E.
  - apply Ascii.eqb_eq in E as ->.
    destruct (Split s sep) as [|f fs]; [done|].
    cbn [Join String.append]. by rewrite <- IH.
  - destruct (Split s sep) as [|f fs]; [done|].
    rewrite <- IH. by destruct fs.
Qed.

End StringFacts.

(** ** The base-type classifier of [src/discovery.go] *)

Section BaseType.
Import strings.
Variable u : string -> string.

Lemma keyValue_inv line key value :
  ClassifierSpec.keyValue line = Some (key, value) ->
  line = key +:+ String "="%char value.
Proof.
  revert key value. induction line as [|c line IH]; intros key value; [done|].
  simpl. destruct (Ascii.eqb c "="%char) eqn:E.
  - apply Ascii.eqb_eq in E as ->. by intros [= <- <-].
  - destruct (ClassifierSpec.keyValue line) as [[k v]|]; [|done].
    intros [= <- <-]. simpl. f_equal. by apply IH.
Qed.

Lemma keyValue_append key value :
  occurs "="%char key = false ->
  ClassifierSpec.keyValue (key +:+ String "="%char value) = Some (key, value).
Proof.
  induction key as [|c key IH]; simpl; intros H; [done|].
  apply orb_false_iff in H as [-> H]. by rewrite IH.
Qed.

(** The [switch] is the rule table read from the top. *)
Lemma baseTypeOf_applyRules value :
  Discovery.baseTypeOf value = ClassifierSpec.applyRules value.
Proof.
  unfold Discovery.baseTypeOf, ClassifierSpec.applyRules, ClassifierSpec.rules.
  cbn [find fst snd].
  destruct (Contains value "debian"); [done|].
  destruct (Contains value "alpine"); [done|].
  destruct (Contains value "centos"); [done|].
  destruct (Contains value "rhel"); [done|].
  destruct (Contains value "ubi"); [done|].
  by destruct (Contains value "wolfi").
Qed.

(** No pattern of the table holds a double quote, so quotes around the
    value never decide a rule. *)
Lemma applyRules_Trim value :
  ClassifierSpec.applyRules (Trim value dquote) = ClassifierSpec.applyRules value.
Proof.
  unfold ClassifierSpec.applyRules, ClassifierSpec.rules. cbn [find fst snd].
  by rewrite !Contains_Trim.
Qed.

Lemma dropClosingQuote_cases value :
  ClassifierSpec.dropClosingQuote value = value \/
  value = ClassifierSpec.dropClosingQuote value +:+ String dquote EmptyString.
Proof.
  induction value as [|c [|c' rest] IH].
  - by left.
  - cbn. destruct (Ascii.eqb c dquote) eqn:E; [|by left].
    apply Ascii.eqb_eq in E as ->. by right.
  - change (ClassifierSpec.dropClosingQuote (String c (String c' rest)))
      with (String c (ClassifierSpec.dropClosingQuote (String c' rest))).
    destruct IH as [->| IH]; [by left|]. right.
    change (String c (String c' rest)
            = String c (ClassifierSpec.dropClosingQuote (String c' rest)
                        +:+ String dquote EmptyString)).
    by rewrite <- IH.
Qed.

Lemma Contains_unquote value p :
  occurs dquote p = false -> p <> EmptyString ->
  Contains (ClassifierSpec.unquote value) p = Contains value p.
Proof.
  intros Hq Hp. unfold ClassifierSpec.unquote.
  transitivity (Contains (ClassifierSpec.dropOpeningQuote value) p).
  - destruct (dropClosingQuote_cases (ClassifierSpec.dropOpeningQuote value))
      as [->|E]; [done|].
    rewrite E at 2. by rewrite Contains_snoc.
  - destruct value as [|c rest]; [done|].
    unfold ClassifierSpec.dropOpeningQuote.
    destruct (Ascii.eqb c dquote) eqn:E; [|done].
    apply Ascii.eqb_eq in E as ->. cbn [Contains].
    by rewrite (HasPrefix_head_absent dquote rest p Hq Hp).
Qed.

Lemma applyRules_unquote value :
  ClassifierSpec.applyRules (ClassifierSpec.unquote value)
  = ClassifierSpec.applyRules value.
Proof.
  unfold ClassifierSpec.applyRules, ClassifierSpec.rules. cbn [find fst snd].
  by rewrite !Contains_unquote.
Qed.

(** A second [name=] in front of the value decides no rule either. *)
Lemma applyRules_name_prefix rest :
  ClassifierSpec.applyRules ("name=" +:+ rest) = ClassifierSpec.applyRules rest.
Proof. reflexivity. Qed.

(** The [HasPrefix] test on a lowered line is the test on its key. *)
Lemma identity_prefix_key l :
  HasPrefix l "id=" || HasPrefix l "name="
  = match ClassifierSpec.keyValue l with
    | Some (key, _) => existsb (String.eqb key) ClassifierSpec.identityFields
    | None => false
    end.
Proof.
  destruct (HasPrefix l "id=") eqn:Hid.
  { pose proof (HasPrefix_inv _ _ Hid) as E.
    set (r := sliceFrom _ l) in E. clearbody r. subst l. reflexivity. }
  destruct (HasPrefix l "name=") eqn:Hname.
  { pose proof (HasPrefix_inv _ _ Hname) as E.
    set (r := sliceFrom _ l) in E. clearbody r. subst l. reflexivity. }
  destruct (ClassifierSpec.keyValue l) as [[key value]|] eqn:Hkv; [|done].
  apply keyValue_inv in Hkv. subst l. cbn [existsb ClassifierSpec.identityFields].
  destruct (String.eqb key "id") eqn:E1.
  { apply String.eqb_eq in E1 as ->. cbn in Hid.
    by rewrite HasPrefix_empty in Hid. }
  destruct (String.eqb key "name") eqn:E2; [|done].
  apply String.eqb_eq in E2 as ->. cbn in Hname.
  by rewrite HasPrefix_empty in Hname.
Qed.

(** On an identity line, the two [TrimPrefix] calls, [Trim] and the
    [switch] give what the rule table gives on the unquoted value. *)
Lemma identity_value_rules l :
  HasPrefix l "id=" || HasPrefix l "name=" = true ->
  Discovery.baseTypeOf
    (Trim (TrimPrefix (TrimPrefix l "id=") "name=") dquote)
  = ClassifierSpec.applyRules
      (ClassifierSpec.unquote
         match ClassifierSpec.keyValue l with
         | Some (_, value) => value
         | None => EmptyString
         end).
Proof.
  intros H. rewrite baseTypeOf_applyRules, applyRules_Trim, applyRules_unquote.
  destruct (HasPrefix l "id=") eqn:Hid.
  - pose proof (HasPrefix_inv _ _ Hid) as E.
    set (r := sliceFrom _ l) in E. clearbody r. subst l.
    rewrite TrimPrefix_append.
    change (ClassifierSpec.keyValue ("id=" +:+ r)) with (Some ("id", r)).
    destruct (HasPrefix r "name=") eqn:Hname.
    + pose proof (HasPrefix_inv _ _ Hname) as E.
      set (r' := sliceFrom _ r) in E. clearbody r'. subst r.
      by rewrite TrimPrefix_append, applyRules_name_prefix.
    + by rewrite TrimPrefix_absent.
  - simpl in H. rewrite (TrimPrefix_absent l "id=") by done.
    pose proof (HasPrefix_inv _ _ H) as E.
    set (r := sliceFrom _ l) in E. clearbody r. subst l.
    by rewrite TrimPrefix_append.
Qed.

Lemma parseOsRelease_lines_spec lines :
  Discovery.parseOsRelease_lines u lines
  = match find (ClassifierSpec.isIdentityLine u) lines with
    | Some line =>
        ClassifierSpec.applyRules
          (ClassifierSpec.unquote (ClassifierSpec.valueOf u line))
    | None => "Unknown"
    end.
Proof.
  induction lines as [|line lines IH]; [done|].
  cbn [Discovery.parseOsRelease_lines find].
  unfold ClassifierSpec.isIdentityLine at 1.
  rewrite <- identity_prefix_key.
  destruct (HasPrefix (ToLower u line) "id=" || HasPrefix (ToLower u line) "name=")
    eqn:E; [|exact IH].
  unfold ClassifierSpec.valueOf. by apply identity_value_rules.
Qed.

(** The same for the other variant: one prefix, one [TrimPrefix], and a
    [switch] on the whole value. *)
Lemma id_prefix_key l :
  HasPrefix l "id="
  = match ClassifierSpec.keyValue l with
    | Some (key, _) => String.eqb key "id"
    | None => false
    end.
Proof.
  destruct (HasPrefix l "id=") eqn:Hid.
  { pose proof (HasPrefix_inv _ _ Hid) as E.
    set (r := sliceFrom _ l) in E. clearbody r. subst l. reflexivity. }
  destruct (ClassifierSpec.keyValue l) as [[key value]|] eqn:Hkv; [|done].
  apply keyValue_inv in Hkv. subst l.
  destruct (String.eqb key "id") eqn:E1; [|done].
  apply String.eqb_eq in E1 as ->. cbn in Hid.
  by rewrite HasPrefix_empty in Hid.
Qed.

Lemma Slog_baseTypeOf_exact id :
  Slog.baseTypeOf id
  = if existsb (String.eqb id) ClassifierSpec.knownDistributions then id else "other".
Proof.
  unfold Slog.baseTypeOf, ClassifierSpec.knownDistributions. cbn [existsb].
  destruct (String.eqb id "debian") eqn:E1.
  { by apply String.eqb_eq in E1 as ->. }
  destruct (String.eqb id "ubuntu") eqn:E2.
  { by apply String.eqb_eq in E2 as ->. }
  destruct (String.eqb id "alpine") eqn:E3.
  { by apply String.eqb_eq in E3 as ->. }
  destruct (String.eqb id "centos"); [done|].
  destruct (String.eqb id "rhel"); [done|].
  by destruct (String.eqb id "fedora").
Qed.

Lemma Slog_parseOsRelease_lines_spec lines :
  Slog.parseOsRelease_lines u lines
  = match find (ClassifierSpec.isIdLine u) lines with
    | Some line =>
        let value := Trim (ClassifierSpec.valueOf u line) dquote in
        if existsb (String.eqb value) ClassifierSpec.knownDistributions
        then value else "other"
    | None => "unknown"
    end.
Proof.
  induction lines as [|line lines IH]; [done|].
  cbn [Slog.parseOsRelease_lines find].
  unfold ClassifierSpec.isIdLine at 1. rewrite <- id_prefix_key.
  destruct (HasPrefix (ToLower u line) "id=") eqn:E; [|exact IH].
  cbv zeta. rewrite Slog_baseTypeOf_exact. unfold ClassifierSpec.valueOf.
  pose proof (HasPrefix_inv _ _ E) as El.
  set (r := sliceFrom _ (ToLower u line)) in El. clearbody r. rewrite El.
  rewrite TrimPrefix_append.
  by change (ClassifierSpec.keyValue ("id=" +:+ r)) with (Some ("id", r)).
Qed.

(** C4, for each of the two variants. For every content, [parseOsRelease] scans the lines in
    order and stops at the first line whose key before ['='] is, letter
    case set aside, an identity field; it strips the double quotes around
    the value of that line and maps the value to a tag; without such a
    line it returns the "unknown" tag.  In [src/discovery.go] the identity
    fields are [id] and [name], the value goes through the ordered
    substring rules, the first matching rule giving the canonical tag and
    ["Other"] standing for a value no rule matches, and the last resort is
    ["Unknown"]: [ClassifierSpec.baseType].  In the other variant the only
    identity field is [id], the value is compared for equality with the
    known distributions and is its own tag when it is one of them,
    ["other"] otherwise, and the last resort is ["unknown"]:
    [ClassifierSpec.baseTypeExact]. *)
Theorem parseOsRelease_first_identity_line :
  (forall content,
      Discovery.parseOsRelease u content = ClassifierSpec.baseType u content)
  /\ (forall content,
      Slog.parseOsRelease u content = ClassifierSpec.baseTypeExact u content).
Proof.
  split; intros content.
  - unfold Discovery.parseOsRelease, ClassifierSpec.baseType.
    apply parseOsRelease_lines_spec.
  - unfold Slog.parseOsRelease, ClassifierSpec.baseTypeExact.
    apply Slog_parseOsRelease_lines_spec.
Qed.

End BaseType.

(** ** Totality, tags and the deciding line of [parseOsRelease] *)

Section DecidingLine.
Import strings.
Variable u : string -> string.

Lemma Discovery_baseTypeOf_tag value :
  In (Discovery.baseTypeOf value) Discovery.baseTypeTags.
Proof.
  unfold Discovery.baseTypeOf, Discovery.baseTypeTags.
  repeat match goal with
         | |- context [if ?b then _ else _] => destruct b
         end; simpl; tauto.
Qed.

Lemma Discovery_lines_tag lines :
  In (Discovery.parseOsRelease_lines u lines) Discovery.baseTypeTags.
Proof.
  induction lines as [|line lines IH]; cbn [Discovery.parseOsRelease_lines].
  - simpl; tauto.
  - destruct (_ || _); [apply Discovery_baseTypeOf_tag | exact IH].
Qed.

Lemma Slog_baseTypeOf_tag id : In (Slog.baseTypeOf id) Slog.baseTypeTags.
Proof.
  unfold Slog.baseTypeOf, Slog.baseTypeTags.
  destruct (String.eqb id "debian"); [simpl; tauto|].
  destruct (String.eqb id "ubuntu"); [simpl; tauto|].
  destruct (String.eqb id "alpine"); [simpl; tauto|].
  destruct (String.eqb id "centos") eqn:E1.
  { apply String.eqb_eq in E1 as ->. simpl; tauto. }
  destruct (String.eqb id "rhel") eqn:E2.
  { apply String.eqb_eq in E2 as ->. simpl; tauto. }
  destruct (String.eqb id "fedora") eqn:E3.
  { apply String.eqb_eq in E3 as ->. simpl; tauto. }
  simpl; tauto.
Qed.

Lemma Slog_lines_tag lines :
  In (Slog.parseOsRelease_lines u lines) Slog.baseTypeTags.
Proof.
  induction lines as [|line lines IH]; cbn [Slog.parseOsRelease_lines].
  - simpl; tauto.
  - destruct (HasPrefix _ _); [apply Slog_baseTypeOf_tag | exact IH].
Qed.

(** The loop skips the lines that fail the test and returns at the first
    one that passes it, whatever follows. *)
Lemma Discovery_lines_first before line after :
  Forall (fun l => Discovery.hasIdentityPrefix u l = false) before ->
  Discovery.hasIdentityPrefix u line = true ->
  Discovery.parseOsRelease_lines u (before ++ line :: after)
  = Discovery.parseOsRelease_lines u [line].
Proof.
  unfold Discovery.hasIdentityPrefix. intros Hb Hl.
  induction Hb as [|l before Hl' _ IH]; cbn [app Discovery.parseOsRelease_lines].
  - by rewrite Hl.
  - by rewrite Hl'.
Qed.

Lemma Slog_lines_first before line after :
  Forall (fun l => Slog.hasIdentityPrefix u l = false) before ->
  Slog.hasIdentityPrefix u line = true ->
  Slog.parseOsRelease_lines u (before ++ line :: after)
  = Slog.parseOsRelease_lines u [line].
Proof.
  unfold Slog.hasIdentityPrefix. intros Hb Hl.
  induction Hb as [|l before Hl' _ IH]; cbn [app Slog.parseOsRelease_lines].
  - by rewrite Hl.
  - by rewrite Hl'.
Qed.

(** A field of the content, taken as a content of its own, is one line. *)
Lemma Split_field_alone content before line after :
  Split content newline = before ++ line :: after ->
  Split line newline = [line].
Proof.
  intros E. apply Split_no_sep.
  pose proof (Split_fields content newline) as H. rewrite E in H.
  apply Forall_app in H as [_ H]. by inversion H.
Qed.

(** C10, with the tags of each variant. [parseOsRelease] returns for every content, and what
    it returns is one of a fixed finite set of tags: [Debian], [Alpine],
    [RHEL], [Chainguard], [Other], [Unknown] in [src/discovery.go];
    [debian], [ubuntu], [alpine], [centos], [rhel], [fedora], [other],
    [unknown] in the other variant.  The result is that of the first line
    whose lowered form starts with the identity prefix ([id=] or [name=]
    in [src/discovery.go], [id=] in the other variant): the lines after
    it are ignored.  Empty content gives [Unknown] ([unknown]). *)
Theorem parseOsRelease_tags_first_line :
  (forall content, In (Discovery.parseOsRelease u content) Discovery.baseTypeTags)
  /\ (forall content, In (Slog.parseOsRelease u content) Slog.baseTypeTags)
  /\ (forall content before line after,
        Split content newline = before ++ line :: after ->
        Forall (fun l => Discovery.hasIdentityPrefix u l = false) before ->
        Discovery.hasIdentityPrefix u line = true ->
        Discovery.parseOsRelease u content = Discovery.parseOsRelease u line)
  /\ (forall content before line after,
        Split content newline = before ++ line :: after ->
        Forall (fun l => Slog.hasIdentityPrefix u l = false) before ->
        Slog.hasIdentityPrefix u line = true ->
        Slog.parseOsRelease u content = Slog.parseOsRelease u line)
  /\ Discovery.parseOsRelease u EmptyString = "Unknown"
  /\ Slog.parseOsRelease u EmptyString = "unknown".
Proof.
  split; [intros; apply Discovery_lines_tag|].
  split; [intros; apply Slog_lines_tag|].
  split.
  { intros content before line after E Hb Hl. unfold Discovery.parseOsRelease.
    rewrite (Split_field_alone _ _ _ _ E), E.
    by apply Discovery_lines_first. }
  split; [|by split].
  intros content before line after E Hb Hl. unfold Slog.parseOsRelease.
  rewrite (Split_field_alone _ _ _ _ E), E.
  by apply Slog_lines_first.
Qed.

End DecidingLine.

(** ** Compliance *)

Section Compliance.
Import strings.
Variable u : string -> string.

(** C3. For every content and image reference, [isFipsCompliant] is the
    disjunction of "the content holds an explicit compliance marker,
    letter case set aside" and "the image-name heuristic matches".  So a
    marker in the content gives [true] whatever the image reference is,
    and a matching image name gives [true] whatever the content is: the
    image name only ever adds compliance. *)
Theorem isFipsCompliant_marker_or_image (content image : string) :
  Discovery.isFipsCompliant u content image
  = ClassifierSpec.hasComplianceMarker u content
    || Discovery.isFipsFromImageName u image
  /\ (ClassifierSpec.hasComplianceMarker u content = true ->
      forall image', Discovery.isFipsCompliant u content image' = true)
  /\ (Discovery.isFipsFromImageName u image = true ->
      forall content', Discovery.isFipsCompliant u content' image = true)
  /\ (Discovery.isFipsCompliant u content image = false ->
      forall image', Discovery.isFipsCompliant u content image'
                     = Discovery.isFipsFromImageName u image').
Proof.
  assert (E : forall c i, Discovery.isFipsCompliant u c i
              = ClassifierSpec.hasComplianceMarker u c
                || Discovery.isFipsFromImageName u i).
  { intros c i. unfold Discovery.isFipsCompliant, ClassifierSpec.hasComplianceMarker.
    cbn [existsb ClassifierSpec.complianceMarkers]. rewrite orb_false_r.
    by destruct (_ || _). }
  split; [apply E|]. split; [|split].
  - intros H image'. by rewrite E, H.
  - intros H content'. by rewrite E, H, orb_true_r.
  - intros H image'. rewrite E in H. apply orb_false_iff in H as [H _].
    by rewrite E, H.
Qed.

(** Every indicator of the list holds ["fips"], so the heuristic is the
    search for that one token in the lowered image reference. *)
Lemma Contains_trans s mid sub :
  Contains s mid = true -> Contains mid sub = true -> Contains s sub = true.
Proof.
  rewrite !Contains_iff. intros (f1 & b1 & ->) (f2 & b2 & ->).
  exists (f1 +:+ f2), (b2 +:+ b1). by rewrite !append_assoc.
Qed.

Lemma isFipsFromImageName_token image :
  Discovery.isFipsFromImageName u image = Contains (ToLower u image) "fips".
Proof.
  unfold Discovery.isFipsFromImageName, Discovery.fipsIndicators. cbn [existsb].
  destruct (Contains (ToLower u image) "fips") eqn:E; [done|].
  assert (H : forall indicator, Contains indicator "fips" = true ->
                Contains (ToLower u image) indicator = false).
  { intros indicator Hi. destruct (Contains _ indicator) eqn:Ei; [|done].
    by rewrite (Contains_trans _ _ _ Ei Hi) in E. }
  by rewrite !H.
Qed.

(** C1, the two failure paths of [getContainerDetails]: when the stream
    fails the flag is the image-name heuristic; when the executor cannot
    be created the flag is [false] whatever the image reference is. *)
Lemma getContainerDetails_stream_error clientset call pod container stderr :
  Discovery.Exec clientset call (corev1.Namespace pod) (corev1.Name pod)
                 (corev1.ContainerName container)
  = Discovery.StreamError stderr ->
  Discovery.getContainerDetails u clientset call pod container
  = ("Unknown", Discovery.isFipsFromImageName u (corev1.Image container)).
Proof. unfold Discovery.getContainerDetails. by intros ->. Qed.

Lemma getContainerDetails_executor_error clientset call pod container :
  Discovery.Exec clientset call (corev1.Namespace pod) (corev1.Name pod)
                 (corev1.ContainerName container)
  = Discovery.ExecutorError ->
  Discovery.getContainerDetails u clientset call pod container
  = ("Unknown", false).
Proof. unfold Discovery.getContainerDetails. by intros ->. Qed.

(** C1 at the image reference [registry/app-fips:2.0]: the heuristic
    matches and the stream-failure path reports it, but the path taken
    when the executor cannot be created answers [false]. *)
Theorem getContainerDetails_no_executor_not_compliant :
  Discovery.isFipsFromImageName u (corev1.Image fipsContainer) = true
  /\ Discovery.getContainerDetails u brokenStream 0 fipsPod fipsContainer
     = ("Unknown", true)
  /\ Discovery.getContainerDetails u noExecutor 0 fipsPod fipsContainer
     = ("Unknown", false).
Proof. repeat split. Qed.

(** C8, on each of the two variants. On the content [ID="ubuntu"\nNAME="Ubuntu"] and the
    image reference [myregistry/app:1.0], [src/discovery.go] has no rule
    for that distribution and classifies the container as base type
    [Other], not compliant; [parseOsRelease] of the other variant, which
    has no compliance flag, returns [ubuntu]. *)
Theorem ubuntu_release_classification :
  Discovery.parseOsRelease u ubuntuRelease = "Other"
  /\ Discovery.isFipsCompliant u ubuntuRelease "myregistry/app:1.0" = false
  /\ ClassifierSpec.hasComplianceMarker u ubuntuRelease = false
  /\ Slog.parseOsRelease u ubuntuRelease = "ubuntu".
Proof. repeat split. Qed.

End Compliance.

(** ** Letter case *)

Section LetterCase.
Import strings.
Variable u : string -> string.

Lemma toLowerByte_below_RuneSelf c :
  (nat_of_ascii (toLowerByte c) <? 128)%nat = (nat_of_ascii c <? 128)%nat.
Proof. destruct c as [[] [] [] [] [] [] [] []]; reflexivity. Qed.

Lemma equalFoldBytes_isASCII a b :
  equalFoldBytes a b = true -> isASCII a = isASCII b.
Proof.
  revert b. induction a as [|x a IH]; intros [|y b]; try done.
  cbn [equalFoldBytes isASCII]. intros H.
  apply andb_true_iff in H as [Hxy Hab]. apply Ascii.eqb_eq in Hxy.
  rewrite <- (toLowerByte_below_RuneSelf x), <- (toLowerByte_below_RuneSelf y).
  by rewrite Hxy, (IH b Hab).
Qed.

Lemma equalFoldBytes_mapBytes a b :
  equalFoldBytes a b = true -> mapBytes toLowerByte a = mapBytes toLowerByte b.
Proof.
  revert b. induction a as [|x a IH]; intros [|y b]; try done.
  cbn [equalFoldBytes mapBytes]. intros H.
  apply andb_true_iff in H as [Hxy Hab]. apply Ascii.eqb_eq in Hxy.
  by rewrite Hxy, (IH b Hab).
Qed.

(** Two ASCII strings whose bytes agree up to the case of the letters
    differ in letter case at most. *)
Lemma equalFoldBytes_sameUpToCase a b :
  isASCII a = true -> equalFoldBytes a b = true -> sameUpToCase u a b.
Proof.
  intros Ha H. unfold sameUpToCase, ToLower.
  rewrite <- (equalFoldBytes_isASCII a b H), Ha.
  by apply equalFoldBytes_mapBytes.
Qed.

(** The loop of [parseOsRelease] reads its lines through [ToLower] only. *)
Lemma parseOsRelease_lines_sameUpToCase lines lines' :
  Forall2 (sameUpToCase u) lines lines' ->
  Discovery.parseOsRelease_lines u lines = Discovery.parseOsRelease_lines u lines'.
Proof.
  unfold sameUpToCase.
  induction 1 as [|l l' lines lines' Hl _ IH]; [done|].
  cbn [Discovery.parseOsRelease_lines]. by rewrite Hl, IH.
Qed.

Lemma isFipsFromImageName_sameUpToCase image image' :
  sameUpToCase u image image' ->
  Discovery.isFipsFromImageName u image = Discovery.isFipsFromImageName u image'.
Proof. unfold sameUpToCase, Discovery.isFipsFromImageName. by intros ->. Qed.

End LetterCase.

(** ** What "letter case set aside" means on ASCII text *)

Section AsciiReading.
Import strings.
Variable u : string -> string.

Lemma mapBytes_append f a b :
  mapBytes f (a +:+ b) = mapBytes f a +:+ mapBytes f b.
Proof. induction a as [|x a IH]; simpl; [done|by rewrite IH]. Qed.

Lemma mapBytes_append_inv f s x y :
  mapBytes f s = x +:+ y ->
  exists s1 s2, s = s1 +:+ s2 /\ mapBytes f s1 = x /\ mapBytes f s2 = y.
Proof.
  revert s. induction x as [|c x IH]; intros s H.
  - by exists EmptyString, s.
  - destruct s as [|d s]; [done|]. simpl in H. injection H as Hc Hs.
    destruct (IH s Hs) as (s1 & s2 & -> & H1 & H2).
    exists (String d s1), s2. simpl. by rewrite Hc, H1.
Qed.

Lemma isASCII_append a b : isASCII (a +:+ b) = isASCII a && isASCII b.
Proof. induction a as [|x a IH]; simpl; [done|]. by rewrite IH, andb_assoc. Qed.

Lemma mapBytes_equalFoldBytes a b :
  mapBytes toLowerByte a = mapBytes toLowerByte b -> equalFoldBytes a b = true.
Proof.
  revert b. induction a as [|x a IH]; intros [|y b]; try done.
  simpl. intros [= Hxy Hab]. by rewrite Hxy, Ascii.eqb_refl, (IH b Hab).
Qed.

(** On an ASCII content, [hasComplianceMarker] holds exactly when some
    stretch of the content spells one of the markers, in any letter
    case. *)
Lemma hasComplianceMarker_ascii content :
  isASCII content = true ->
  ClassifierSpec.hasComplianceMarker u content = true
  <-> exists front found back marker,
      content = front +:+ found +:+ back
      /\ In marker ClassifierSpec.complianceMarkers
      /\ equalFoldBytes found marker = true.
Proof.
  intros Hascii. unfold ClassifierSpec.hasComplianceMarker, ToLower.
  rewrite Hascii, existsb_exists. split.
  - intros (marker & Hin & Hc). apply Contains_iff in Hc as (a & b & Hc).
    apply mapBytes_append_inv in Hc as (front & rest & -> & _ & Hc).
    apply mapBytes_append_inv in Hc as (found & back & -> & Hfound & _).
    exists front, found, back, marker. repeat split; [done|].
    apply mapBytes_equalFoldBytes. rewrite Hfound.
    destruct Hin as [<-|[<-|[]]]; reflexivity.
  - intros (front & found & back & marker & -> & Hin & Hfold).
    exists marker. split; [done|]. apply Contains_iff.
    exists (mapBytes toLowerByte front), (mapBytes toLowerByte back).
    rewrite !mapBytes_append. do 2 f_equal.
    rewrite (equalFoldBytes_mapBytes _ _ Hfold).
    destruct Hin as [<-|[<-|[]]]; reflexivity.
Qed.

Lemma toLowerByte_equals_sign c :
  Ascii.eqb (toLowerByte c) "="%char = Ascii.eqb c "="%char.
Proof. destruct c as [[] [] [] [] [] [] [] []]; reflexivity. Qed.

Lemma keyValue_mapBytes line :
  ClassifierSpec.keyValue (mapBytes toLowerByte line)
  = match ClassifierSpec.keyValue line with
    | Some (key, value) =>
        Some (mapBytes toLowerByte key, mapBytes toLowerByte value)
    | None => None
    end.
Proof.
  induction line as [|c line IH]; [done|]. simpl.
  rewrite toLowerByte_equals_sign. destruct (Ascii.eqb c "="%char); [done|].
  rewrite IH. by destruct (ClassifierSpec.keyValue line) as [[key value]|].
Qed.

(** On an ASCII line, the identity test lowers the key that stands before
    the first ['='] of the line as written. *)
Lemma isIdentityLine_ascii line :
  isASCII line = true ->
  ClassifierSpec.isIdentityLine u line
  = match ClassifierSpec.keyValue line with
    | Some (key, _) =>
        existsb (String.eqb (ToLower u key)) ClassifierSpec.identityFields
    | None => false
    end.
Proof.
  intros Hascii. unfold ClassifierSpec.isIdentityLine, ToLower at 1.
  rewrite Hascii, keyValue_mapBytes.
  destruct (ClassifierSpec.keyValue line) as [[key value]|] eqn:E; [|done].
  apply keyValue_inv in E. subst line.
  rewrite isASCII_append in Hascii. apply andb_true_iff in Hascii as [Hkey _].
  unfold ToLower. by rewrite Hkey.
Qed.

End AsciiReading.

(** ** Counting maps and gauge vectors *)

Section MapFacts.
Import gomap.

Lemma sumValues_empty : sumValues ∅ = 0.
Proof. apply map_fold_empty. Qed.

Lemma sumValues_insert_fresh (m : gmap string nat) k v :
  m !! k = None -> sumValues (<[k:=v]> m) = v + sumValues m.
Proof.
  intros H. unfold sumValues.
  rewrite map_fold_insert_L; [done | intros; lia | done].
Qed.

Lemma sumValues_delete (m : gmap string nat) k v :
  m !! k = Some v -> sumValues m = v + sumValues (delete k m).
Proof.
  intros H. unfold sumValues.
  rewrite (map_fold_delete_L _ _ k v m); [done | intros; lia | done].
Qed.

(** [m[k]++] adds one to the sum of the values, whether [k] was there or
    not. *)
Lemma sumValues_incr (m : gmap string nat) k :
  sumValues (incr k m) = S (sumValues m).
Proof.
  unfold incr. destruct (m !! k) as [v|] eqn:E; simpl.
  - rewrite <- insert_delete_eq.
    rewrite sumValues_insert_fresh by apply lookup_delete_eq.
    rewrite (sumValues_delete m k v E). lia.
  - by rewrite sumValues_insert_fresh.
Qed.

Lemma at_key_incr (m : gmap string nat) k k' :
  at_key (incr k m) k' = if String.eqb k k' then S (at_key m k') else at_key m k'.
Proof.
  unfold at_key, incr. destruct (String.eqb k k') eqn:E.
  - apply String.eqb_eq in E as ->. by rewrite lookup_insert_eq.
  - apply String.eqb_neq in E. by rewrite lookup_insert_ne.
Qed.

(** Setting every entry of a map into an empty vector builds that map,
    in whatever order the entries are visited. *)
Lemma rangeSet_list_to_map (entries : list (string * nat)) :
  rangeSet entries ∅ = list_to_map (rev entries).
Proof.
  unfold rangeSet, list_to_map. symmetry.
  apply (fold_left_rev_right
           (fun (kc : string * nat) (v : gmap string nat) => <[kc.1:=kc.2]> v)).
Qed.

Lemma rangeSet_range_order (m : gmap string nat) entries :
  range_order m entries -> rangeSet entries ∅ = m.
Proof.
  unfold range_order. intros H. rewrite rangeSet_list_to_map.
  transitivity (list_to_map (map_to_list m) : gmap string nat);
    [|apply list_to_map_to_list].
  apply list_to_map_proper.
  - rewrite <- Permutation_rev, H. apply NoDup_fst_map_to_list.
  - by rewrite <- Permutation_rev.
Qed.

(** The [range] loop alone never removes a label: one that is not set
    keeps the value it had.  Dropping stale labels is the work of
    [Reset]. *)
Lemma rangeSet_keeps_other_labels (entries : list (string * nat)) vec label :
  label ∉ entries.*1 -> rangeSet entries vec !! label = vec !! label.
Proof.
  unfold rangeSet. revert vec.
  induction entries as [|[k v] entries IH]; intros vec Hnot; [done|].
  cbn [fold_left fst snd]. rewrite fmap_cons, not_elem_of_cons in Hnot.
  destruct Hnot as [Hne Hnot]. rewrite IH by done.
  by rewrite lookup_insert_ne.
Qed.

Lemma range_order_map_to_list (m : gmap string nat) :
  range_order m (map_to_list m).
Proof. unfold range_order. reflexivity. Qed.

End MapFacts.

(** ** Aggregation in [updateMetrics] *)

Section Aggregation.
Import gomap corev1.
Variable u : string -> string.
Variable clientset : Discovery.Clientset.

(** The inner loop leaves the namespace map alone and counts every
    container once in the image map and once in the base-type map. *)
Lemma tallyContainer_fold pod containers t :
  let t' := fold_left (Discovery.tallyContainer u clientset pod) containers t in
  Discovery.namespaceMap t' = Discovery.namespaceMap t
  /\ sumValues (Discovery.imageMap t')
     = sumValues (Discovery.imageMap t) + List.length containers
  /\ sumValues (Discovery.baseTypeMap t')
     = sumValues (Discovery.baseTypeMap t) + List.length containers
  /\ Discovery.execCalls t' = Discovery.execCalls t + List.length containers.
Proof.
  revert t. induction containers as [|c containers IH]; intros t; cbn [fold_left].
  - cbn. repeat split; lia.
  - destruct (IH (Discovery.tallyContainer u clientset pod t c))
      as (Hns & Himg & Hbt & Hcalls).
    cbn zeta in *. rewrite Hns, Himg, Hbt, Hcalls.
    unfold Discovery.tallyContainer; cbn [Discovery.namespaceMap
      Discovery.imageMap Discovery.baseTypeMap Discovery.execCalls].
    rewrite !sumValues_incr. cbn [List.length]. repeat split; lia.
Qed.

Lemma tallyPod_step t pod :
  let t' := Discovery.tallyPod u clientset t pod in
  Discovery.namespaceMap t' = incr (Namespace pod) (Discovery.namespaceMap t)
  /\ sumValues (Discovery.imageMap t')
     = sumValues (Discovery.imageMap t) + List.length (Containers pod)
  /\ sumValues (Discovery.baseTypeMap t')
     = sumValues (Discovery.baseTypeMap t) + List.length (Containers pod)
  /\ Discovery.execCalls t'
     = Discovery.execCalls t + List.length (Containers pod).
Proof.
  unfold Discovery.tallyPod.
  match goal with
  | |- context [fold_left ?f ?l ?t0] =>
      destruct (tallyContainer_fold pod l t0) as (Hns & Himg & Hbt & Hcalls)
  end.
  cbn zeta in *. by rewrite Hns, Himg, Hbt, Hcalls.
Qed.

Lemma tallyPod_fold items t :
  let t' := fold_left (Discovery.tallyPod u clientset) items t in
  sumValues (Discovery.namespaceMap t')
  = sumValues (Discovery.namespaceMap t) + List.length items
  /\ (forall ns, at_key (Discovery.namespaceMap t') ns
                 = at_key (Discovery.namespaceMap t) ns + podsInNamespace ns items)
  /\ sumValues (Discovery.imageMap t')
     = sumValues (Discovery.imageMap t) + containerCount items
  /\ sumValues (Discovery.baseTypeMap t')
     = sumValues (Discovery.baseTypeMap t) + containerCount items
  /\ Discovery.execCalls t' = Discovery.execCalls t + containerCount items.
Proof.
  revert t. induction items as [|pod items IH]; intros t; cbn [fold_left].
  - unfold podsInNamespace, containerCount. cbn.
    repeat split; intros; lia.
  - destruct (IH (Discovery.tallyPod u clientset t pod))
      as (Hns & Hat & Himg & Hbt & Hcalls).
    destruct (tallyPod_step t pod) as (Sns & Simg & Sbt & Scalls).
    cbn zeta in *.
    rewrite Hns, Himg, Hbt, Hcalls, Sns, Simg, Sbt, Scalls, sumValues_incr.
    unfold containerCount, podsInNamespace, list_sum in *.
    cbn [map fold_right List.length].
    repeat split; try lia.
    intros ns. rewrite Hat, Sns, at_key_incr. cbn [List.filter].
    destruct (String.eqb (Namespace pod) ns); cbn [List.length]; lia.
Qed.

(** C5. In every cycle that reaches aggregation, the maps built by
    [updateMetrics] satisfy: the namespace counts add up to the number of
    pods of the listing, each namespace being counted once per pod that
    lives in it (not once per container); the base-type counts and the
    image counts both add up to the number of containers of the
    listing. *)
Theorem tally_sums (items : list Pod) :
  let t := Discovery.tally u clientset items in
  sumValues (Discovery.namespaceMap t) = List.length items
  /\ (forall ns, at_key (Discovery.namespaceMap t) ns = podsInNamespace ns items)
  /\ sumValues (Discovery.baseTypeMap t) = containerCount items
  /\ sumValues (Discovery.imageMap t) = containerCount items
  /\ sumValues (Discovery.baseTypeMap t) = sumValues (Discovery.imageMap t).
Proof.
  destruct (tallyPod_fold items Discovery.emptyTally)
    as (Hns & Hat & Himg & Hbt & _).
  cbn zeta in *. unfold Discovery.tally.
  rewrite Hns, Himg, Hbt. cbn [Discovery.emptyTally Discovery.namespaceMap
    Discovery.imageMap Discovery.baseTypeMap] in *.
  rewrite sumValues_empty. repeat split; try done.
Qed.

End Aggregation.

(** ** Publication *)

Section Publication.
Import gomap corev1.
Variable u : string -> string.

(** The executable [updateMetrics] is one of the runs that the relation
    allows. *)
Lemma updateMetrics_is_run clientset g :
  Discovery.updateMetrics_run u clientset g (Discovery.updateMetrics u clientset g).
Proof.
  unfold Discovery.updateMetrics.
  destruct (Discovery.ListPods clientset) as [|items] eqn:E.
  - by apply Discovery.run_list_failed.
  - apply (Discovery.run_published u clientset g items);
      [done | apply range_order_map_to_list..].
Qed.

Lemma Slog_updateMetrics_is_run clientset g :
  Slog.updateMetrics_run u clientset g (Slog.updateMetrics u clientset g).
Proof.
  unfold Slog.updateMetrics.
  destruct (Slog.ListPods clientset) as [|items] eqn:E.
  - by apply Slog.run_list_failed.
  - apply (Slog.run_published u clientset g items);
      [done | apply range_order_map_to_list..].
Qed.

(** A run that gets a listing publishes the aggregate of that listing,
    whatever was published before and in whatever order the maps are
    visited. *)
Lemma run_publishes_snapshot clientset items g g' :
  Discovery.ListPods clientset = ListOk items ->
  Discovery.updateMetrics_run u clientset g g' ->
  g' = Discovery.snapshot u clientset items.
Proof.
  intros Hlist Hrun.
  destruct Hrun as [Herr | items' nsOrder imgOrder btOrder Hok Hns Himg Hbt].
  - congruence.
  - rewrite Hlist in Hok. injection Hok as <-.
    unfold Discovery.publish, Discovery.resetGauges, Discovery.snapshot.
    cbn [Discovery.podsPerNamespace Discovery.containerImageCount
         Discovery.containerBaseImageType].
    by rewrite (rangeSet_range_order _ _ Hns), (rangeSet_range_order _ _ Himg),
               (rangeSet_range_order _ _ Hbt).
Qed.

(** C2. When the list call returns an error, [updateMetrics] returns
    before any [Reset] or [Set]: the published gauges after the cycle are
    the published gauges before it.  This holds for the four gauges of
    [src/discovery.go] and for the three gauge vectors of the other
    variant. *)
Theorem updateMetrics_list_error_keeps_gauges :
  (forall clientset g,
      Discovery.ListPods clientset = ListError ->
      Discovery.updateMetrics u clientset g = g
      /\ forall g', Discovery.updateMetrics_run u clientset g g' <-> g' = g)
  /\ (forall clientset g,
      Slog.ListPods clientset = ListError ->
      Slog.updateMetrics u clientset g = g
      /\ forall g', Slog.updateMetrics_run u clientset g g' <-> g' = g).
Proof.
  split; intros clientset g Herr.
  - split; [unfold Discovery.updateMetrics; by rewrite Herr|].
    intros g'. split.
    + intros [?|? ? ? ? Hok]; [done | congruence].
    + intros ->. by apply Discovery.run_list_failed.
  - split; [unfold Slog.updateMetrics; by rewrite Herr|].
    intros g'. split.
    + intros [?|? ? ? ? Hok]; [done | congruence].
    + intros ->. by apply Slog.run_list_failed.
Qed.

(** C6. Take two cycles in a row that both reach publication.  After the
    second one the published gauges are exactly the aggregate of the
    second cycle: a namespace, an image reference or a base-type tag that
    the first cycle published and the second cycle did not count is no
    longer a label of its gauge vector. *)
Theorem publication_drops_stale_labels
        (first second : Discovery.Clientset) (items items' : list Pod)
        (g0 g1 g2 : Discovery.Gauges) :
  Discovery.ListPods first = ListOk items ->
  Discovery.ListPods second = ListOk items' ->
  Discovery.updateMetrics_run u first g0 g1 ->
  Discovery.updateMetrics_run u second g1 g2 ->
  g2 = Discovery.snapshot u second items'
  /\ (forall ns,
        is_Some (Discovery.podsPerNamespace g1 !! ns) ->
        Discovery.namespaceMap (Discovery.tally u second items') !! ns = None ->
        Discovery.podsPerNamespace g2 !! ns = None)
  /\ (forall image,
        is_Some (Discovery.containerImageCount g1 !! image) ->
        Discovery.imageMap (Discovery.tally u second items') !! image = None ->
        Discovery.containerImageCount g2 !! image = None)
  /\ (forall baseType,
        is_Some (Discovery.containerBaseImageType g1 !! baseType) ->
        Discovery.baseTypeMap (Discovery.tally u second items') !! baseType = None ->
        Discovery.containerBaseImageType g2 !! baseType = None).
Proof.
  intros _ Hsecond _ Hrun.
  rewrite (run_publishes_snapshot second items' g1 g2 Hsecond Hrun).
  by repeat split.
Qed.

(** C9. With the listing and the outcome of every remote command fixed,
    two runs of the pipeline give the same aggregate: the maps are made
    afresh in each run, so neither what was published before nor the
    order in which the runtime visits the maps shows in the result. *)
Theorem pipeline_twice_same_snapshot
        (clientset : Discovery.Clientset) (items : list Pod)
        (g0 g0' g1 g1' g2 : Discovery.Gauges) :
  Discovery.ListPods clientset = ListOk items ->
  Discovery.updateMetrics_run u clientset g0 g1 ->
  Discovery.updateMetrics_run u clientset g1 g2 ->
  Discovery.updateMetrics_run u clientset g0' g1' ->
  g1 = Discovery.snapshot u clientset items
  /\ g2 = g1
  /\ g1' = g1.
Proof.
  intros Hlist H1 H2 H1'.
  rewrite (run_publishes_snapshot clientset items g0 g1 Hlist H1).
  rewrite (run_publishes_snapshot clientset items g1 g2 Hlist H2).
  by rewrite (run_publishes_snapshot clientset items g0' g1' Hlist H1').
Qed.

End Publication.

(** ** Worked instances *)

(** C2 on two clusters whose list call fails: the gauges of an earlier
    cycle are still there. *)
Lemma updateMetrics_list_error_keeps_gauges_witness :
  Discovery.updateMetrics asciiOnly unreachable earlierGauges = earlierGauges
  /\ Slog.updateMetrics asciiOnly unreachableSlog earlierGaugesSlog = earlierGaugesSlog.
Proof.
  destruct (updateMetrics_list_error_keeps_gauges asciiOnly) as [HD HS].
  split.
  - assert (Herr : Discovery.ListPods unreachable = corev1.ListError)
      by reflexivity.
    exact (proj1 (HD unreachable earlierGauges Herr)).
  - assert (Herr : Slog.ListPods unreachableSlog = corev1.ListError)
      by reflexivity.
    exact (proj1 (HS unreachableSlog earlierGaugesSlog Herr)).
Defined.

(** C3 on a content with a marker, on an image reference that matches,
    and on a content without marker. *)
Lemma isFipsCompliant_marker_or_image_witness :
  Discovery.isFipsCompliant asciiOnly "FIPS_MODE=yes" "nginx:1.25" = true
  /\ Discovery.isFipsCompliant asciiOnly "ID=debian" "registry/app-fips:2.0" = true
  /\ Discovery.isFipsCompliant asciiOnly "ID=debian" "registry/app-fips:2.0"
     = Discovery.isFipsFromImageName asciiOnly "registry/app-fips:2.0".
Proof.
  split; [|split].
  - destruct (isFipsCompliant_marker_or_image asciiOnly "FIPS_MODE=yes" "")
      as (_ & H & _).
    apply H. reflexivity.
  - destruct (isFipsCompliant_marker_or_image asciiOnly "" "registry/app-fips:2.0")
      as (_ & _ & H & _).
    apply H. reflexivity.
  - destruct (isFipsCompliant_marker_or_image asciiOnly "ID=debian" "nginx:1.25")
      as (_ & _ & _ & H).
    apply H. reflexivity.
Defined.

(** C10 on [alpineRelease]: [src/discovery.go] stops at the [NAME=] line,
    the other variant at the [ID=] line. *)
Lemma parseOsRelease_tags_first_line_witness :
  Discovery.parseOsRelease asciiOnly alpineRelease
  = Discovery.parseOsRelease asciiOnly "NAME=Alpine Linux"
  /\ Slog.parseOsRelease asciiOnly alpineRelease
     = Slog.parseOsRelease asciiOnly "ID=debian".
Proof.
  destruct (parseOsRelease_tags_first_line asciiOnly) as (_ & _ & HD & HS & _).
  split.
  - apply (HD alpineRelease ["PRETTY=x"] "NAME=Alpine Linux" ["ID=debian"]).
    + reflexivity.
    + repeat constructor.
    + reflexivity.
  - apply (HS alpineRelease ["PRETTY=x"; "NAME=Alpine Linux"] "ID=debian" []).
    + reflexivity.
    + repeat constructor.
    + reflexivity.
Defined.

(** C6 on a cycle over [brokenStream] followed by a cycle over
    [alpineCluster]: the labels of the first cycle are gone. *)
Lemma publication_drops_stale_labels_witness :
  let g1 := Discovery.updateMetrics asciiOnly brokenStream earlierGauges in
  let g2 := Discovery.updateMetrics asciiOnly alpineCluster g1 in
  Discovery.podsPerNamespace g2 !! "default" = None
  /\ Discovery.containerImageCount g2 !! "registry/app-fips:2.0" = None
  /\ Discovery.containerBaseImageType g2 !! "Unknown" = None.
Proof.
  intros g1 g2.
  destruct (publication_drops_stale_labels asciiOnly brokenStream alpineCluster
              [fipsPod] [alpinePod] earlierGauges g1 g2)
    as (_ & Hns & Himg & Hbt).
  - reflexivity.
  - reflexivity.
  - apply updateMetrics_is_run.
  - apply updateMetrics_is_run.
  - split; [|split].
    + apply Hns; [by eexists | reflexivity].
    + apply Himg; [by eexists | reflexivity].
    + apply Hbt; [by eexists | reflexivity].
Defined.

(** C9 on two cycles over [alpineCluster]. *)
Lemma pipeline_twice_same_snapshot_witness :
  let g1 := Discovery.updateMetrics asciiOnly alpineCluster earlierGauges in
  Discovery.updateMetrics asciiOnly alpineCluster g1 = g1.
Proof.
  intros g1.
  destruct (pipeline_twice_same_snapshot asciiOnly alpineCluster [alpinePod]
              earlierGauges (Discovery.resetGauges earlierGauges)
              g1 g1 (Discovery.updateMetrics asciiOnly alpineCluster g1))
    as (_ & H & _).
  - reflexivity.
  - apply updateMetrics_is_run.
  - apply updateMetrics_is_run.
  - unfold g1.
    pose proof (updateMetrics_is_run asciiOnly alpineCluster
                  (Discovery.resetGauges earlierGauges)) as H.
    exact H.
  - exact H.
Defined.

(** C4: the variant with lowercase tags does not take a [NAME=] line for
    an identity line; where [ClassifierSpec.baseType] gives the Debian tag
    it answers [unknown]. *)
Lemma slog_ignores_name_line :
  ClassifierSpec.baseType asciiOnly "NAME=debian" = "Debian"
  /\ Slog.parseOsRelease asciiOnly "NAME=debian" = "unknown"
  /\ Slog.parseOsRelease asciiOnly "NAME=debian"
     <> ClassifierSpec.baseType asciiOnly "NAME=debian".
Proof. repeat split. discriminate. Qed.

(** C8: on [src/discovery.go] the content [ID="ubuntu"\nNAME="Ubuntu"] with
    the image reference [myregistry/app:1.0] is not given a base type of
    the Ubuntu family together with [compliant = false]: the base type is
    [Other]. *)
Lemma ubuntu_release_no_ubuntu_tag :
  let details :=
    Discovery.getContainerDetails asciiOnly ubuntuCluster 0 ubuntuPod ubuntuContainer in
  ~ (strings.Contains (strings.ToLower asciiOnly (fst details)) "ubuntu" = true
     /\ snd details = false).
Proof. cbv zeta. vm_compute. intros [H _]. discriminate H. Qed.

(** C10: [ID=ubuntu] is given the tag [ubuntu] by the variant with
    lowercase tags, and that tag is not the lowercase form of any tag of
    [src/discovery.go]. *)
Lemma slog_tag_outside_lowercase_analogues :
  ~ In (Slog.parseOsRelease asciiOnly "ID=ubuntu")
       (map (strings.ToLower asciiOnly) Discovery.baseTypeTags).
Proof. vm_compute. intuition discriminate. Qed.

(** ** The embedding at work on concrete inputs *)

Example split_trailing_newline :
  strings.Split ("a" +:+ String strings.newline "b" +:+ String strings.newline "")
                strings.newline
  = ["a"; "b"; ""].
Proof. reflexivity. Qed.

Example trim_all_quotes :
  strings.Trim (String strings.dquote (String strings.dquote "ab")
                +:+ String strings.dquote "") strings.dquote
  = "ab".
Proof. reflexivity. Qed.

Example parse_wolfi : Discovery.parseOsRelease asciiOnly "ID=wolfi" = "Chainguard".
Proof. reflexivity. Qed.

Example parse_first_identity_line_wins :
  Discovery.parseOsRelease asciiOnly alpineRelease = "Alpine"
  /\ Slog.parseOsRelease asciiOnly alpineRelease = "debian".
Proof. split; reflexivity. Qed.

Example parse_no_identity_line :
  Discovery.parseOsRelease asciiOnly "PRETTY_NAME=Debian" = "Unknown"
  /\ Slog.parseOsRelease asciiOnly "NAME=debian" = "unknown".
Proof. split; reflexivity. Qed.

Example parse_exact_match_only :
  Slog.parseOsRelease asciiOnly "ID=debian-slim" = "other"
  /\ Discovery.parseOsRelease asciiOnly "ID=debian-slim" = "Debian".
Proof. split; reflexivity. Qed.

Example cycle_with_broken_stream :
  Discovery.updateMetrics asciiOnly brokenStream earlierGauges
  = Discovery.mkGauges {["default" := 1]} {["registry/app-fips:2.0" := 1]}
                       {["Unknown" := 1]} 1.
Proof. reflexivity. Qed.

Example cycle_without_executor :
  Discovery.updateMetrics asciiOnly noExecutor earlierGauges
  = Discovery.mkGauges {["default" := 1]} {["registry/app-fips:2.0" := 1]}
                       {["Unknown" := 1]} 0.
Proof. reflexivity. Qed.

Example cycle_two_pods_one_namespace :
  let cluster :=
    Discovery.mkClientset (corev1.ListOk [fipsPod; ubuntuPod])
      (fun call _ _ _ => match call with
                         | 0 => Discovery.StreamOk "ID=alpine"
                         | _ => Discovery.StreamOk ubuntuRelease
                         end) in
  Discovery.updateMetrics asciiOnly cluster earlierGauges
  = Discovery.mkGauges {["default" := 2]}
      (<["registry/app-fips:2.0" := 1]> {["myregistry/app:1.0" := 1]})
      (<["Alpine" := 1]> {["Other" := 1]}) 1.
Proof. vm_compute. reflexivity. Qed.

(** * Further properties of the code *)

(** ** [parseOsRelease]: the "unknown" tag and the work of the trimming *)

Section ParseFurther.
Import strings.
Variable u : string -> string.

Lemma Discovery_baseTypeOf_known value : Discovery.baseTypeOf value <> "Unknown".
Proof.
  unfold Discovery.baseTypeOf.
  repeat match goal with
         | |- context [if ?b then _ else _] => destruct b
         end; discriminate.
Qed.

Lemma Slog_baseTypeOf_known id : Slog.baseTypeOf id <> "unknown".
Proof.
  rewrite Slog_baseTypeOf_exact. unfold ClassifierSpec.knownDistributions.
  destruct (existsb _ _) eqn:E; [|discriminate].
  apply existsb_exists in E as (tag & Hin & Heq).
  apply String.eqb_eq in Heq as ->.
  simpl in Hin. intuition (subst; discriminate).
Qed.

Lemma Discovery_lines_Unknown_iff lines :
  Discovery.parseOsRelease_lines u lines = "Unknown"
  <-> Forall (fun l => Discovery.hasIdentityPrefix u l = false) lines.
Proof.
  unfold Discovery.hasIdentityPrefix.
  induction lines as [|line lines IH]; cbn [Discovery.parseOsRelease_lines].
  - split; [constructor|done].
  - destruct (_ || _) eqn:E.
    + split.
      * intros H. by apply Discovery_baseTypeOf_known in H.
      * intros H. inversion H; subst. congruence.
    + rewrite IH. split.
      * intros H. by constructor.
      * intros H. by inversion H.
Qed.

Lemma Slog_lines_unknown_iff lines :
  Slog.parseOsRelease_lines u lines = "unknown"
  <-> Forall (fun l => Slog.hasIdentityPrefix u l = false) lines.
Proof.
  unfold Slog.hasIdentityPrefix.
  induction lines as [|line lines IH]; cbn [Slog.parseOsRelease_lines].
  - split; [constructor|done].
  - destruct (HasPrefix _ _) eqn:E.
    + split.
      * intros H. by apply Slog_baseTypeOf_known in H.
      * intros H. inversion H; subst. congruence.
    + rewrite IH. split.
      * intros H. by constructor.
      * intros H. by inversion H.
Qed.

(** X1. [parseOsRelease] of [src/discovery.go] answers ["Unknown"] exactly
    when no line of the content, once lowered, starts with [id=] or
    [name=]: a content with such a line never comes out as ["Unknown"],
    whatever the value on that line. *)
Theorem parseOsRelease_Unknown_iff (content : string) :
  Discovery.parseOsRelease u content = "Unknown"
  <-> Forall (fun l => Discovery.hasIdentityPrefix u l = false)
             (Split content newline).
Proof. apply Discovery_lines_Unknown_iff. Qed.

(** X2. [parseOsRelease] of the variant with lowercase tags answers
    ["unknown"] exactly when no line of the content, once lowered, starts
    with [id=]. *)
Theorem Slog_parseOsRelease_unknown_iff (content : string) :
  Slog.parseOsRelease u content = "unknown"
  <-> Forall (fun l => Slog.hasIdentityPrefix u l = false)
             (Split content newline).
Proof. apply Slog_lines_unknown_iff. Qed.

(** The key and the [=] hold none of the patterns. *)
Lemma applyRules_id_prefix rest :
  ClassifierSpec.applyRules ("id=" +:+ rest) = ClassifierSpec.applyRules rest.
Proof. reflexivity. Qed.

Lemma identity_line_tag l :
  HasPrefix l "id=" || HasPrefix l "name=" = true ->
  Discovery.baseTypeOf (Trim (TrimPrefix (TrimPrefix l "id=") "name=") dquote)
  = Discovery.baseTypeOf l.
Proof.
  intros H. rewrite (identity_value_rules l H), applyRules_unquote.
  rewrite (baseTypeOf_applyRules l).
  destruct (HasPrefix l "id=") eqn:Hid.
  - pose proof (HasPrefix_inv _ _ Hid) as E.
    set (r := sliceFrom _ l) in E. clearbody r. subst l.
    change (ClassifierSpec.keyValue ("id=" +:+ r)) with (Some ("id", r)).
    by rewrite applyRules_id_prefix.
  - simpl in H. pose proof (HasPrefix_inv _ _ H) as E.
    set (r := sliceFrom _ l) in E. clearbody r. subst l.
    change (ClassifierSpec.keyValue ("name=" +:+ r)) with (Some ("name", r)).
    by rewrite applyRules_name_prefix.
Qed.

(** X3. In [src/discovery.go] the two [TrimPrefix] calls and the [Trim]
    never change the tag: the content is classified by the first rule of
    the [switch] whose pattern occurs anywhere in the lowered identity
    line, key and quotes included. *)
Theorem parseOsRelease_trimming_inert (content : string)
        (before after : list string) (line : string) :
  Split content newline = before ++ line :: after ->
  Forall (fun l => Discovery.hasIdentityPrefix u l = false) before ->
  Discovery.hasIdentityPrefix u line = true ->
  Discovery.parseOsRelease u content = Discovery.baseTypeOf (ToLower u line).
Proof.
  intros E Hb Hl. unfold Discovery.parseOsRelease. rewrite E.
  rewrite (Discovery_lines_first u before line after Hb Hl).
  unfold Discovery.hasIdentityPrefix in Hl.
  cbn [Discovery.parseOsRelease_lines]. rewrite Hl.
  by apply identity_line_tag.
Qed.

(** X4. A content that [src/discovery.go] cannot place (["Unknown"]) is
    one that the variant with lowercase tags cannot place either
    (["unknown"]); the converse fails on a content whose only identity
    line is a [NAME=] line. *)
Theorem Unknown_implies_unknown (content : string) :
  Discovery.parseOsRelease u content = "Unknown" ->
  Slog.parseOsRelease u content = "unknown".
Proof.
  unfold Discovery.parseOsRelease, Slog.parseOsRelease.
  rewrite Discovery_lines_Unknown_iff, Slog_lines_unknown_iff.
  intros HF. eapply Forall_impl; [exact HF|]. intros l.
  unfold Discovery.hasIdentityPrefix, Slog.hasIdentityPrefix.
  intros H. by apply orb_false_iff in H as [H _].
Qed.

End ParseFurther.

(** ** Compliance: the one token behind every positive answer *)

Section ComplianceFurther.
Import strings corev1.
Variable u : string -> string.

(** X5. The image-name heuristic looks for the one token [fips]: the
    three longer indicators of the list all hold it and never decide. *)
Theorem isFipsFromImageName_one_token (image : string) :
  Discovery.isFipsFromImageName u image = Contains (ToLower u image) "fips".
Proof. apply isFipsFromImageName_token. Qed.

Lemma isFipsCompliant_token osRelease image :
  Discovery.isFipsCompliant u osRelease image = true ->
  Contains (ToLower u osRelease) "fips" = true
  \/ Contains (ToLower u image) "fips" = true.
Proof.
  unfold Discovery.isFipsCompliant.
  destruct (Contains (ToLower u osRelease) "fips_mode=yes") eqn:E1.
  { intros _. left. by apply (Contains_trans _ _ _ E1). }
  destruct (Contains (ToLower u osRelease) "fips=1") eqn:E2.
  { intros _. left. by apply (Contains_trans _ _ _ E2). }
  cbn [orb]. rewrite isFipsFromImageName_token. by right.
Qed.

(** X6. [getContainerDetails] never reports a container as compliant
    unless the token [fips] occurs, in some letter case, in its image
    reference or in the output that the command really produced; when
    the executor cannot be created the flag is always [false]. *)
Theorem compliant_needs_fips_token
        (clientset : Discovery.Clientset) (call : nat)
        (pod : Pod) (container : Container) :
  (snd (Discovery.getContainerDetails u clientset call pod container) = true ->
   Discovery.Exec clientset call (Namespace pod) (Name pod)
                  (ContainerName container)
   <> Discovery.ExecutorError
   /\ (Contains (ToLower u (Image container)) "fips" = true
       \/ exists osRelease,
            Discovery.Exec clientset call (Namespace pod) (Name pod)
                           (ContainerName container)
            = Discovery.StreamOk osRelease
            /\ Contains (ToLower u osRelease) "fips" = true))
  /\ (Discovery.Exec clientset call (Namespace pod) (Name pod)
                     (ContainerName container)
      = Discovery.ExecutorError ->
      snd (Discovery.getContainerDetails u clientset call pod container) = false).
Proof.
  unfold Discovery.getContainerDetails.
  destruct (Discovery.Exec _ _ _ _ _) as [|stderr|osRelease]; cbn [snd].
  - split; [discriminate|done].
  - split; [|discriminate]. rewrite isFipsFromImageName_token.
    intros H. split; [discriminate|by left].
  - split; [|discriminate]. intros H. split; [discriminate|].
    destruct (isFipsCompliant_token _ _ H) as [Hc|Hi]; [|by left].
    right. by exists osRelease.
Qed.

(** X7. On an ASCII content, [isFipsCompliant] answers [true] exactly
    when some stretch of the content spells [fips_mode=yes] or [fips=1]
    in any letter case, or the image-name heuristic matches. *)
Theorem isFipsCompliant_ascii_iff (content image : string) :
  isASCII content = true ->
  Discovery.isFipsCompliant u content image = true
  <-> (exists front found back marker,
          content = front +:+ found +:+ back
          /\ In marker ["fips_mode=yes"; "fips=1"]
          /\ equalFoldBytes found marker = true)
      \/ Discovery.isFipsFromImageName u image = true.
Proof.
  intros Hascii.
  rewrite <- (hasComplianceMarker_ascii u content Hascii).
  unfold Discovery.isFipsCompliant, ClassifierSpec.hasComplianceMarker.
  cbn [existsb ClassifierSpec.complianceMarkers]. rewrite orb_false_r.
  destruct (_ || _); [by split; [left|] |].
  split; [by right|]. by intros [|].
Qed.

End ComplianceFurther.

(** ** Letter case of a whole content *)

Section WholeContentCase.
Import strings.
Variable u : string -> string.

Lemma toLowerByte_newline c :
  Ascii.eqb (toLowerByte c) newline = Ascii.eqb c newline.
Proof. destruct c as [[] [] [] [] [] [] [] []]; reflexivity. Qed.

(** Changing the case of letters moves no line break. *)
Lemma Split_equalFoldBytes a b :
  equalFoldBytes a b = true ->
  Forall2 (fun x y => equalFoldBytes x y = true)
          (Split a newline) (Split b newline).
Proof.
  revert b. induction a as [|x a IH]; intros [|y b]; try done.
  - intros _. by repeat constructor.
  - cbn [equalFoldBytes Split]. intros H.
    apply andb_true_iff in H as [Hxy Hab]. specialize (IH b Hab).
    assert (Hnl : Ascii.eqb x newline = Ascii.eqb y newline).
    { rewrite <- (toLowerByte_newline x), <- (toLowerByte_newline y).
      apply Ascii.eqb_eq in Hxy. by rewrite Hxy. }
    rewrite <- Hnl. destruct (Ascii.eqb x newline).
    + by constructor.
    + destruct IH as [|f f' fs fs' Hf Hfs]; [by repeat constructor; simpl; rewrite Hxy|].
      constructor; [|done]. simpl. by rewrite Hxy, Hf.
Qed.

Lemma Split_isASCII s sep :
  isASCII s = true -> Forall (fun field => isASCII field = true) (Split s sep).
Proof.
  induction s as [|c s IH]; cbn [isASCII Split].
  - by repeat constructor.
  - intros H. apply andb_true_iff in H as [Hc Hs]. specialize (IH Hs).
    destruct (Ascii.eqb c sep); [by constructor|].
    destruct IH as [|f fs Hf Hfs]; [by repeat constructor; simpl; rewrite Hc|].
    constructor; [|done]. simpl. by rewrite Hc, Hf.
Qed.

Lemma Split_sameUpToCase a b :
  isASCII a = true -> equalFoldBytes a b = true ->
  Forall2 (sameUpToCase u) (Split a newline) (Split b newline).
Proof.
  intros Ha H. pose proof (Split_isASCII a newline Ha) as Hascii.
  pose proof (Split_equalFoldBytes a b H) as Hfold.
  induction Hfold as [|x y xs ys Hxy _ IH]; [constructor|].
  inversion Hascii; subst. constructor; [|by apply IH].
  by apply equalFoldBytes_sameUpToCase.
Qed.

Lemma Slog_lines_sameUpToCase lines lines' :
  Forall2 (sameUpToCase u) lines lines' ->
  Slog.parseOsRelease_lines u lines = Slog.parseOsRelease_lines u lines'.
Proof.
  unfold sameUpToCase.
  induction 1 as [|l l' lines lines' Hl _ IH]; [done|].
  cbn [Slog.parseOsRelease_lines]. by rewrite Hl, IH.
Qed.

(** X8. Writing any of the letters of an ASCII content in the other case,
    on whatever lines, leaves the base type that [parseOsRelease] of
    [src/discovery.go] returns unchanged. *)
Theorem parseOsRelease_whole_content_case (content content' : string) :
  isASCII content = true ->
  equalFoldBytes content content' = true ->
  Discovery.parseOsRelease u content = Discovery.parseOsRelease u content'.
Proof.
  intros Ha H. unfold Discovery.parseOsRelease.
  by apply parseOsRelease_lines_sameUpToCase, Split_sameUpToCase.
Qed.

(** X9. The same holds of [parseOsRelease] in the variant with lowercase
    tags, although it compares the value for equality: the comparison is
    made on the lowered line. *)
Theorem Slog_parseOsRelease_whole_content_case (content content' : string) :
  isASCII content = true ->
  equalFoldBytes content content' = true ->
  Slog.parseOsRelease u content = Slog.parseOsRelease u content'.
Proof.
  intros Ha H. unfold Slog.parseOsRelease.
  by apply Slog_lines_sameUpToCase, Split_sameUpToCase.
Qed.

Lemma equalFoldBytes_refl a : equalFoldBytes a a = true.
Proof. induction a as [|x a IH]; [done|]. simpl. by rewrite Ascii.eqb_refl. Qed.

Lemma equalFoldBytes_append a a' b b' :
  equalFoldBytes a a' = true -> equalFoldBytes b b' = true ->
  equalFoldBytes (a +:+ b) (a' +:+ b') = true.
Proof.
  revert a'. induction a as [|x a IH]; intros [|y a'] Ha Hb; try done.
  simpl in *. apply andb_true_iff in Ha as [Hxy Ha].
  by rewrite Hxy, (IH a' Ha Hb).
Qed.

Lemma isFipsCompliant_sameUpToCase content content' image image' :
  sameUpToCase u content content' -> sameUpToCase u image image' ->
  Discovery.isFipsCompliant u content image
  = Discovery.isFipsCompliant u content' image'.
Proof.
  intros Hc Hi. unfold Discovery.isFipsCompliant.
  rewrite (isFipsFromImageName_sameUpToCase u _ _ Hi).
  unfold sameUpToCase in Hc. by rewrite Hc.
Qed.

(** C7, on ASCII text. The classifier does not see the case of ASCII
    letters.  Take an ASCII content and one of its lines, [key=value];
    write any letters of the key or of the value in the other case:
    [parseOsRelease] returns the same base type.  More generally, write
    any letters of an ASCII content and of an ASCII image reference in
    the other case, byte for byte: [parseOsRelease] returns the same
    base type and [isFipsCompliant] the same flag. *)
Theorem classifier_case_insensitive :
  (forall front key value back key' value',
      isASCII (front +:+ key +:+ String "="%char value +:+ back) = true ->
      equalFoldBytes key key' = true ->
      equalFoldBytes value value' = true ->
      Discovery.parseOsRelease u (front +:+ key' +:+ String "="%char value' +:+ back)
      = Discovery.parseOsRelease u (front +:+ key +:+ String "="%char value +:+ back))
  /\ (forall content content' image image',
      isASCII content = true ->
      isASCII image = true ->
      equalFoldBytes content content' = true ->
      equalFoldBytes image image' = true ->
      Discovery.parseOsRelease u content' = Discovery.parseOsRelease u content
      /\ Discovery.isFipsCompliant u content' image'
         = Discovery.isFipsCompliant u content image).
Proof.
  assert (Hparse : forall content content',
             isASCII content = true -> equalFoldBytes content content' = true ->
             Discovery.parseOsRelease u content' = Discovery.parseOsRelease u content).
  { intros content content' Ha H. unfold Discovery.parseOsRelease. symmetry.
    by apply parseOsRelease_lines_sameUpToCase, Split_sameUpToCase. }
  split.
  - intros front key value back key' value' Ha Hkey Hvalue.
    apply Hparse; [done|].
    apply equalFoldBytes_append; [apply equalFoldBytes_refl|].
    apply equalFoldBytes_append; [done|].
    change (equalFoldBytes (String "="%char (value +:+ back))
                           (String "="%char (value' +:+ back)) = true).
    cbn [equalFoldBytes]. rewrite Ascii.eqb_refl.
    apply equalFoldBytes_append; [done | apply equalFoldBytes_refl].
  - intros content content' image image' Hc Hi Hcontent Himage.
    split; [by apply Hparse|]. symmetry.
    apply isFipsCompliant_sameUpToCase; by apply equalFoldBytes_sameUpToCase.
Qed.

End WholeContentCase.

(** ** What each count of a cycle is *)

Section CountFacts.
Import gomap.

Lemma incr_is_Some (m : gmap string nat) k k' :
  is_Some (incr k m !! k') <-> k = k' \/ is_Some (m !! k').
Proof.
  unfold incr. destruct (decide (k = k')) as [->|Hne].
  - rewrite lookup_insert_eq. split; [by left|by eexists].
  - rewrite lookup_insert_ne by done. split; [by right|]. by intros [|].
Qed.

Lemma incr_positive (m : gmap string nat) k :
  (forall k' v, m !! k' = Some v -> 0 < v) ->
  forall k' v, incr k m !! k' = Some v -> 0 < v.
Proof.
  intros Hm k' v. unfold incr. destruct (decide (k = k')) as [->|Hne].
  - rewrite lookup_insert_eq. intros [= <-]. lia.
  - rewrite lookup_insert_ne by done. apply Hm.
Qed.

Lemma countFrom_app (m : gmap string nat) keys keys' :
  countFrom m (keys ++ keys') = countFrom (countFrom m keys) keys'.
Proof. unfold countFrom. apply fold_left_app. Qed.

Lemma at_key_countFrom (m : gmap string nat) keys k :
  at_key (countFrom m keys) k = at_key m k + occurrences k keys.
Proof.
  revert m. induction keys as [|k' keys IH]; intros m.
  - unfold occurrences. cbn. lia.
  - change (countFrom m (k' :: keys)) with (countFrom (incr k' m) keys).
    rewrite IH, at_key_incr. unfold occurrences. cbn [List.filter].
    rewrite (String.eqb_sym k k').
    destruct (String.eqb k' k); cbn [List.length]; lia.
Qed.

Lemma sumValues_countFrom (m : gmap string nat) keys :
  sumValues (countFrom m keys) = sumValues m + List.length keys.
Proof.
  revert m. induction keys as [|k keys IH]; intros m.
  - cbn. lia.
  - change (countFrom m (k :: keys)) with (countFrom (incr k m) keys).
    rewrite IH, sumValues_incr. cbn [List.length]. lia.
Qed.

Lemma countFrom_is_Some (m : gmap string nat) keys k :
  is_Some (countFrom m keys !! k) <-> In k keys \/ is_Some (m !! k).
Proof.
  revert m. induction keys as [|k' keys IH]; intros m.
  - cbn. split; [by right|]. by intros [[]|].
  - change (countFrom m (k' :: keys)) with (countFrom (incr k' m) keys).
    rewrite IH, incr_is_Some. cbn [In]. tauto.
Qed.

Lemma countFrom_positive (m : gmap string nat) keys :
  (forall k v, m !! k = Some v -> 0 < v) ->
  forall k v, countFrom m keys !! k = Some v -> 0 < v.
Proof.
  revert m. induction keys as [|k' keys IH]; intros m Hm; [done|].
  change (countFrom m (k' :: keys)) with (countFrom (incr k' m) keys).
  apply IH. by apply incr_positive.
Qed.

Lemma occurrences_positive k keys : 0 < occurrences k keys <-> In k keys.
Proof.
  unfold occurrences. induction keys as [|k' keys IH]; cbn [List.filter In].
  - cbn. split; [lia|done].
  - destruct (String.eqb k k') eqn:E.
    + apply String.eqb_eq in E as ->. cbn. split; [by left|lia].
    + apply String.eqb_neq in E. rewrite IH. split; [by right|].
      intros [Heq|]; [congruence|done].
Qed.

End CountFacts.

Section TallyAsCounts.
Import gomap corev1.
Variable u : string -> string.
Variable clientset : Discovery.Clientset.

Lemma podDetails_length call pod containers :
  List.length (Discovery.podDetails u clientset call pod containers)
  = List.length containers.
Proof.
  revert call. induction containers as [|c containers IH]; intros call; [done|].
  cbn. by rewrite IH.
Qed.

(** The inner loop as three countings. *)
Lemma tallyContainer_fold_counts pod containers t :
  let t' := fold_left (Discovery.tallyContainer u clientset pod) containers t in
  let details :=
    Discovery.podDetails u clientset (Discovery.execCalls t) pod containers in
  Discovery.namespaceMap t' = Discovery.namespaceMap t
  /\ Discovery.imageMap t'
     = countFrom (Discovery.imageMap t) (map Image containers)
  /\ Discovery.baseTypeMap t'
     = countFrom (Discovery.baseTypeMap t) (map fst details)
  /\ Discovery.fipsCount t'
     = Discovery.fipsCount t + List.length (List.filter snd details)
  /\ Discovery.execCalls t' = Discovery.execCalls t + List.length containers.
Proof.
  revert t. induction containers as [|c containers IH]; intros t.
  - cbn. repeat split; lia.
  - destruct (IH (Discovery.tallyContainer u clientset pod t c))
      as (Hns & Himg & Hbt & Hfips & Hcalls).
    cbn zeta in *. cbn [fold_left]. rewrite Hns, Himg, Hbt, Hfips, Hcalls.
    unfold Discovery.tallyContainer at 1 2 3 4 5 6 7.
    cbn [Discovery.namespaceMap Discovery.imageMap Discovery.baseTypeMap
         Discovery.fipsCount Discovery.execCalls Discovery.podDetails
         map List.filter List.length].
    repeat split; try done; [|lia].
    destruct (snd (Discovery.getContainerDetails u clientset
                     (Discovery.execCalls t) pod c));
      cbn [List.length]; lia.
Qed.

(** The whole walk over the listing as four countings. *)
Lemma tallyPod_fold_counts items t :
  let t' := fold_left (Discovery.tallyPod u clientset) items t in
  let details :=
    Discovery.listingDetails u clientset (Discovery.execCalls t) items in
  Discovery.namespaceMap t'
  = countFrom (Discovery.namespaceMap t) (map Namespace items)
  /\ Discovery.imageMap t'
     = countFrom (Discovery.imageMap t) (map Image (allContainers items))
  /\ Discovery.baseTypeMap t'
     = countFrom (Discovery.baseTypeMap t) (map fst details)
  /\ Discovery.fipsCount t'
     = Discovery.fipsCount t + List.length (List.filter snd details)
  /\ Discovery.execCalls t' = Discovery.execCalls t + containerCount items.
Proof.
  revert t. induction items as [|pod items IH]; intros t.
  - unfold containerCount. cbn. repeat split; lia.
  - destruct (IH (Discovery.tallyPod u clientset t pod))
      as (Hns & Himg & Hbt & Hfips & Hcalls).
    cbn zeta in *. cbn [fold_left]. rewrite Hns, Himg, Hbt, Hfips, Hcalls.
    unfold Discovery.tallyPod.
    match goal with
    | |- context [fold_left ?f ?l ?t0] =>
        destruct (tallyContainer_fold_counts pod l t0)
          as (Cns & Cimg & Cbt & Cfips & Ccalls)
    end.
    cbn zeta in *. rewrite Cns, Cimg, Cbt, Cfips, Ccalls.
    cbn [Discovery.namespaceMap Discovery.imageMap Discovery.baseTypeMap
         Discovery.fipsCount Discovery.execCalls].
    unfold allContainers, containerCount, list_sum.
    cbn [map flat_map Discovery.listingDetails fold_right].
    rewrite !map_app, !countFrom_app, List.filter_app, List.length_app.
    repeat split; try done; lia.
Qed.

End TallyAsCounts.

Section TallyFurther.
Import gomap corev1.
Variable u : string -> string.
Variable clientset : Discovery.Clientset.

Lemma tally_counts items :
  let t := Discovery.tally u clientset items in
  let details := Discovery.listingDetails u clientset 0 items in
  Discovery.namespaceMap t = countFrom ∅ (map Namespace items)
  /\ Discovery.imageMap t = countFrom ∅ (map Image (allContainers items))
  /\ Discovery.baseTypeMap t = countFrom ∅ (map fst details)
  /\ Discovery.fipsCount t = List.length (List.filter snd details)
  /\ Discovery.execCalls t = containerCount items.
Proof.
  destruct (tallyPod_fold_counts u clientset items Discovery.emptyTally)
    as (Hns & Himg & Hbt & Hfips & Hcalls).
  cbn zeta in *. unfold Discovery.tally.
  by rewrite Hns, Himg, Hbt, Hfips, Hcalls.
Qed.

Lemma occurrences_map_filter {A} (f : A -> string) k (l : list A) :
  occurrences k (map f l)
  = List.length (List.filter (fun x => String.eqb (f x) k) l).
Proof.
  unfold occurrences. induction l as [|x l IH]; [done|].
  cbn [map List.filter]. rewrite (String.eqb_sym k (f x)).
  destruct (String.eqb (f x) k); cbn [List.length]; by rewrite IH.
Qed.

Lemma listingDetails_length call items :
  List.length (Discovery.listingDetails u clientset call items)
  = containerCount items.
Proof.
  unfold containerCount, list_sum. revert call.
  induction items as [|pod items IH]; intros call; [done|].
  cbn [Discovery.listingDetails map fold_right].
  by rewrite List.length_app, podDetails_length, IH.
Qed.

Lemma empty_positive : forall (k : string) (v : nat), (∅ : gmap string nat) !! k = Some v -> 0 < v.
Proof. intros k v. by rewrite lookup_empty. Qed.

(** X10. After the walk over a listing, a namespace is a key of the
    namespace map exactly when some pod of the listing lives in it, and
    no key of the three maps holds the value [0]: [updateMetrics] never
    publishes a label without something to count under it. *)
Theorem tally_labels_inhabited (items : list Pod) :
  let t := Discovery.tally u clientset items in
  (forall ns, is_Some (Discovery.namespaceMap t !! ns)
              <-> exists pod, In pod items /\ Namespace pod = ns)
  /\ (forall ns v, Discovery.namespaceMap t !! ns = Some v -> 0 < v)
  /\ (forall image v, Discovery.imageMap t !! image = Some v -> 0 < v)
  /\ (forall tag v, Discovery.baseTypeMap t !! tag = Some v -> 0 < v).
Proof.
  destruct (tally_counts items) as (Hns & Himg & Hbt & _).
  cbn zeta in *. rewrite Hns, Himg, Hbt.
  split; [|repeat split; apply countFrom_positive, empty_positive].
  intros ns. rewrite countFrom_is_Some, in_map_iff.
  split.
  - intros [(pod & Heq & Hin)|H]; [by exists pod|].
    rewrite lookup_empty in H. by destruct H.
  - intros (pod & Hin & Heq). left. by exists pod.
Qed.

(** X11. The count kept for an image reference is the number of
    containers of the listing that run it, over all pods; an image
    reference is a key of the map exactly when some container runs it. *)
Theorem tally_image_counts (items : list Pod) (image : string) :
  let t := Discovery.tally u clientset items in
  at_key (Discovery.imageMap t) image = containersWithImage image items
  /\ (is_Some (Discovery.imageMap t !! image)
      <-> exists pod container,
            In pod items /\ In container (Containers pod)
            /\ Image container = image).
Proof.
  destruct (tally_counts items) as (_ & Himg & _).
  cbn zeta in *. rewrite Himg. split.
  - rewrite at_key_countFrom, occurrences_map_filter.
    unfold at_key, containersWithImage. by rewrite lookup_empty.
  - rewrite countFrom_is_Some, in_map_iff. unfold allContainers. split.
    + intros [(container & Heq & Hin)|H].
      * apply in_flat_map in Hin as (pod & Hpod & Hc). by exists pod, container.
      * rewrite lookup_empty in H. by destruct H.
    + intros (pod & container & Hpod & Hc & Heq). left.
      exists container. split; [done|]. apply in_flat_map. by exists pod.
Qed.

(** X12. The count kept for a base-type tag is the number of containers
    that [getContainerDetails] placed under that tag, and the compliance
    count is the number of containers it flagged, one answer being taken
    per container of the listing. *)
Theorem tally_classification_counts (items : list Pod) :
  let t := Discovery.tally u clientset items in
  let details := Discovery.listingDetails u clientset 0 items in
  List.length details = containerCount items
  /\ (forall tag,
        at_key (Discovery.baseTypeMap t) tag
        = List.length (List.filter (fun d => String.eqb (fst d) tag) details))
  /\ Discovery.fipsCount t = List.length (List.filter snd details).
Proof.
  destruct (tally_counts items) as (_ & _ & Hbt & Hfips & _).
  cbn zeta in *. rewrite Hbt, Hfips.
  split; [apply listingDetails_length|]. split; [|done].
  intros tag. rewrite at_key_countFrom, occurrences_map_filter.
  unfold at_key. by rewrite lookup_empty.
Qed.

Lemma getContainerDetails_tag call pod container :
  In (fst (Discovery.getContainerDetails u clientset call pod container))
     Discovery.baseTypeTags.
Proof.
  unfold Discovery.getContainerDetails.
  destruct (Discovery.Exec _ _ _ _ _) as [|stderr|osRelease]; cbn [fst].
  - simpl; tauto.
  - simpl; tauto.
  - apply Discovery_lines_tag.
Qed.

Lemma podDetails_tags call pod containers :
  Forall (fun d => In (fst d) Discovery.baseTypeTags)
         (Discovery.podDetails u clientset call pod containers).
Proof.
  revert call. induction containers as [|c containers IH]; intros call;
    cbn [Discovery.podDetails]; constructor;
    [apply getContainerDetails_tag | apply IH].
Qed.

Lemma listingDetails_tags call items :
  Forall (fun d => In (fst d) Discovery.baseTypeTags)
         (Discovery.listingDetails u clientset call items).
Proof.
  revert call. induction items as [|pod items IH]; intros call;
    cbn [Discovery.listingDetails]; [constructor|].
  apply Forall_app. split; [apply podDetails_tags | apply IH].
Qed.

Lemma size_within_tags (m : gmap string nat) (tags : list string) :
  NoDup tags ->
  (forall k, is_Some (m !! k) -> In k tags) -> size m <= List.length tags.
Proof.
  intros Hnd H.
  rewrite <- size_dom, <- (size_list_to_set (C:=gset string) tags Hnd).
  apply subseteq_size. intros k Hk. apply elem_of_dom in Hk.
  apply elem_of_list_to_set, list_elem_of_In. by apply H.
Qed.

Lemma tally_base_type_keys items tag :
  is_Some (Discovery.baseTypeMap (Discovery.tally u clientset items) !! tag) ->
  In tag Discovery.baseTypeTags.
Proof.
  destruct (tally_counts items) as (_ & _ & Hbt & _).
  cbn zeta in *. rewrite Hbt, countFrom_is_Some, in_map_iff.
  intros [(d & <- & Hin)|H].
  - pose proof (listingDetails_tags 0 items) as HF.
    rewrite Forall_forall in HF. apply HF. by apply list_elem_of_In.
  - rewrite lookup_empty in H. by destruct H.
Qed.

(** X13. Whatever the cluster holds and whatever the commands print, the
    keys of the base-type map are among the six tags of
    [parseOsRelease]: the base-type gauge never has more than six
    labels. *)
Theorem tally_base_type_labels (items : list Pod) :
  (forall tag,
      is_Some (Discovery.baseTypeMap (Discovery.tally u clientset items) !! tag) ->
      In tag Discovery.baseTypeTags)
  /\ size (Discovery.baseTypeMap (Discovery.tally u clientset items)) <= 6.
Proof.
  split; [apply tally_base_type_keys|].
  apply (size_within_tags _ Discovery.baseTypeTags);
    [|apply tally_base_type_keys].
  unfold Discovery.baseTypeTags.
  repeat (apply NoDup_cons; split;
          [rewrite list_elem_of_In; simpl; intuition discriminate|]).
  apply NoDup_nil_2.
Qed.

End TallyFurther.

(** ** What the gauges show after a cycle, and after many *)

Section PublishedFurther.
Import gomap corev1.
Variable u : string -> string.

Lemma allContainers_length items :
  List.length (allContainers items) = containerCount items.
Proof.
  unfold allContainers, containerCount, list_sum.
  induction items as [|pod items IH]; [done|].
  cbn [flat_map map fold_right]. by rewrite List.length_app, IH.
Qed.

(** X15. After a cycle that got a listing, the values of the namespace
    gauge add up to the number of pods listed, the values of the image
    gauge and those of the base-type gauge both add up to the number of
    containers listed, and the compliance gauge is at most that number. *)
Theorem published_totals
        (clientset : Discovery.Clientset) (items : list Pod)
        (g g' : Discovery.Gauges) :
  Discovery.ListPods clientset = ListOk items ->
  Discovery.updateMetrics_run u clientset g g' ->
  sumValues (Discovery.podsPerNamespace g') = List.length items
  /\ sumValues (Discovery.containerImageCount g') = containerCount items
  /\ sumValues (Discovery.containerBaseImageType g') = containerCount items
  /\ Discovery.containersFipsCompliant g' <= containerCount items.
Proof.
  intros Hlist Hrun.
  rewrite (run_publishes_snapshot u clientset items g g' Hlist Hrun).
  unfold Discovery.snapshot.
  cbn [Discovery.podsPerNamespace Discovery.containerImageCount
       Discovery.containerBaseImageType Discovery.containersFipsCompliant].
  destruct (tally_counts u clientset items) as (Hns & Himg & Hbt & Hfips & _).
  cbn zeta in *. rewrite Hns, Himg, Hbt, Hfips, !sumValues_countFrom.
  rewrite sumValues_empty, !List.length_map, allContainers_length.
  rewrite (listingDetails_length u clientset 0 items).
  repeat split; try done.
  rewrite <- (listingDetails_length u clientset 0 items).
  apply List.filter_length_le.
Qed.

(** X16. A list call that succeeds with no pod at all clears every
    gauge, where a list call that fails leaves them as they were. *)
Theorem empty_listing_clears_gauges
        (clientset : Discovery.Clientset) (g g' : Discovery.Gauges) :
  Discovery.ListPods clientset = ListOk [] ->
  Discovery.updateMetrics_run u clientset g g' ->
  g' = Discovery.registered.
Proof.
  intros Hlist Hrun.
  by rewrite (run_publishes_snapshot u clientset [] g g' Hlist Hrun).
Qed.

Lemma mainLoop_is_run ticks g :
  Discovery.mainLoop_run u ticks g (Discovery.mainLoop u ticks g).
Proof.
  revert g. induction ticks as [|clientset ticks IH]; intros g.
  - constructor.
  - apply (Discovery.loop_tick u clientset ticks g
             (Discovery.updateMetrics u clientset g)).
    + apply updateMetrics_is_run.
    + apply IH.
Qed.

(** X17. However many iterations the loop of [main] has made, the gauges
    show the aggregate of the last iteration whose list call succeeded,
    and what they showed at the start when none has: a failed iteration
    changes nothing, a successful one leaves no trace of the iterations
    before it. *)
Theorem mainLoop_shows_last_listing
        (ticks : list Discovery.Clientset) (g g' : Discovery.Gauges) :
  Discovery.mainLoop_run u ticks g g' ->
  g' = match Discovery.lastListing ticks with
       | Some (clientset, items) => Discovery.snapshot u clientset items
       | None => g
       end.
Proof.
  induction 1 as [g|clientset ticks g g1 g' Hstep _ IH]; [done|].
  cbn [Discovery.lastListing].
  destruct (Discovery.lastListing ticks) as [[last items]|]; [done|].
  subst g'. destruct (Discovery.ListPods clientset) as [|items] eqn:Hlist.
  - destruct Hstep as [_|? ? ? ? Hok]; [done|congruence].
  - by apply (run_publishes_snapshot u clientset items g g1).
Qed.

End PublishedFurther.

(** ** The variant with lowercase tags: its counts and its gauges *)

Section SlogFurther.
Import gomap corev1.
Variable u : string -> string.
Variable clientset : Slog.Clientset.

Lemma getBaseImageType_tag call namespace podName containerName :
  In (Slog.getBaseImageType u clientset call namespace podName containerName)
     Slog.baseTypeTags.
Proof.
  unfold Slog.getBaseImageType.
  destruct (Slog.Exec _ _ _ _ _) as [| |content].
  - simpl; tauto.
  - simpl; tauto.
  - apply Slog_lines_tag.
Qed.

Lemma Slog_tallyContainer_fold pod containers t :
  let t' := fold_left (Slog.tallyContainer u clientset pod) containers t in
  Slog.namespaceMap t' = Slog.namespaceMap t
  /\ Slog.imageMap t' = countFrom (Slog.imageMap t) (map Image containers)
  /\ sumValues (Slog.baseImageTypeMap t')
     = sumValues (Slog.baseImageTypeMap t) + List.length containers
  /\ (forall tag, is_Some (Slog.baseImageTypeMap t' !! tag) ->
                  is_Some (Slog.baseImageTypeMap t !! tag)
                  \/ In tag Slog.baseTypeTags)
  /\ Slog.execCalls t' = Slog.execCalls t + List.length containers.
Proof.
  revert t. induction containers as [|c containers IH]; intros t.
  - cbn. repeat split; try lia. by left.
  - destruct (IH (Slog.tallyContainer u clientset pod t c))
      as (Hns & Himg & Hsum & Htags & Hcalls).
    cbn zeta in *. cbn [fold_left]. rewrite Hns, Himg, Hsum, Hcalls.
    unfold Slog.tallyContainer.
    cbn [Slog.namespaceMap Slog.imageMap Slog.baseImageTypeMap Slog.execCalls
         map List.length].
    rewrite sumValues_incr. repeat split; try done; try lia.
    intros tag Htag. destruct (Htags tag Htag) as [H|H]; [|by right].
    unfold Slog.tallyContainer in H. cbn [Slog.baseImageTypeMap] in H.
    apply incr_is_Some in H as [<-|H]; [right|by left].
    apply getBaseImageType_tag.
Qed.

Lemma Slog_tallyPod_fold items t :
  let t' := fold_left (Slog.tallyPod u clientset) items t in
  Slog.namespaceMap t' = countFrom (Slog.namespaceMap t) (map Namespace items)
  /\ Slog.imageMap t'
     = countFrom (Slog.imageMap t) (map Image (allContainers items))
  /\ sumValues (Slog.baseImageTypeMap t')
     = sumValues (Slog.baseImageTypeMap t) + containerCount items
  /\ (forall tag, is_Some (Slog.baseImageTypeMap t' !! tag) ->
                  is_Some (Slog.baseImageTypeMap t !! tag)
                  \/ In tag Slog.baseTypeTags)
  /\ Slog.execCalls t' = Slog.execCalls t + containerCount items.
Proof.
  revert t. induction items as [|pod items IH]; intros t.
  - unfold containerCount. cbn. repeat split; try lia. by left.
  - destruct (IH (Slog.tallyPod u clientset t pod))
      as (Hns & Himg & Hsum & Htags & Hcalls).
    cbn zeta in *. cbn [fold_left]. rewrite Hns, Himg, Hsum, Hcalls.
    unfold Slog.tallyPod in *.
    match goal with
    | |- context [fold_left ?f ?l ?t0] =>
        destruct (Slog_tallyContainer_fold pod l t0)
          as (Cns & Cimg & Csum & Ctags & Ccalls)
    end.
    cbn zeta in *. rewrite Cns, Cimg, Csum, Ccalls.
    cbn [Slog.namespaceMap Slog.imageMap Slog.baseImageTypeMap Slog.execCalls].
    unfold allContainers, containerCount, list_sum.
    cbn [map flat_map fold_right]. rewrite !map_app, !countFrom_app.
    repeat split; try done; try lia.
    intros tag Htag. destruct (Htags tag Htag) as [H|H]; [|by right].
    by apply Ctags.
Qed.

(** X18. In the variant with lowercase tags too, the walk over a listing
    counts each pod once under its namespace and each container once
    under its image reference and once under a base-type tag. *)
Theorem Slog_tally_counts (items : list Pod) :
  let t := Slog.tally u clientset items in
  (forall ns, at_key (Slog.namespaceMap t) ns = podsInNamespace ns items)
  /\ (forall image, at_key (Slog.imageMap t) image
                    = containersWithImage image items)
  /\ sumValues (Slog.namespaceMap t) = List.length items
  /\ sumValues (Slog.imageMap t) = containerCount items
  /\ sumValues (Slog.baseImageTypeMap t) = containerCount items.
Proof.
  destruct (Slog_tallyPod_fold items Slog.emptyTally)
    as (Hns & Himg & Hsum & _ & _).
  cbn zeta in *. unfold Slog.tally. rewrite Hns, Himg, Hsum.
  cbn [Slog.emptyTally Slog.namespaceMap Slog.imageMap Slog.baseImageTypeMap].
  rewrite !sumValues_countFrom, sumValues_empty, !List.length_map.
  rewrite allContainers_length.
  repeat split; try done.
  - intros ns. rewrite at_key_countFrom, occurrences_map_filter.
    unfold at_key, podsInNamespace. by rewrite lookup_empty.
  - intros image. rewrite at_key_countFrom, occurrences_map_filter.
    unfold at_key, containersWithImage. by rewrite lookup_empty.
Qed.

Lemma Slog_base_type_keys items tag :
  is_Some (Slog.baseImageTypeMap (Slog.tally u clientset items) !! tag) ->
  In tag Slog.baseTypeTags.
Proof.
  destruct (Slog_tallyPod_fold items Slog.emptyTally) as (_ & _ & _ & Htags & _).
  cbn zeta in *. intros H. destruct (Htags tag H) as [H'|H']; [|done].
  cbn in H'. rewrite lookup_empty in H'. by destruct H'.
Qed.

(** X19. Whatever the cluster holds and whatever the commands print, the
    keys of the base-type map of the variant are among the eight strings
    that its [parseOsRelease] and [getBaseImageType] return: its
    base-type gauge never has more than eight labels. *)
Theorem Slog_base_type_labels (items : list Pod) :
  (forall tag,
      is_Some (Slog.baseImageTypeMap (Slog.tally u clientset items) !! tag) ->
      In tag Slog.baseTypeTags)
  /\ size (Slog.baseImageTypeMap (Slog.tally u clientset items)) <= 8.
Proof.
  split; [apply Slog_base_type_keys|].
  apply (size_within_tags _ Slog.baseTypeTags); [|apply Slog_base_type_keys].
  unfold Slog.baseTypeTags.
  repeat (apply NoDup_cons; split;
          [rewrite list_elem_of_In; simpl; intuition discriminate|]).
  apply NoDup_nil_2.
Qed.

(** X20. In the variant with lowercase tags, a cycle that got a listing
    leaves in the three gauge vectors exactly the three maps of that
    cycle, whatever they held before and in whatever order the runtime
    visits the maps. *)
Theorem Slog_run_publishes_snapshot (items : list Pod) (g g' : Slog.Gauges) :
  Slog.ListPods clientset = ListOk items ->
  Slog.updateMetrics_run u clientset g g' ->
  g' = Slog.snapshot u clientset items.
Proof.
  intros Hlist Hrun.
  destruct Hrun as [Herr | items' nsOrder imgOrder btOrder Hok Hns Himg Hbt].
  - congruence.
  - rewrite Hlist in Hok. injection Hok as <-.
    unfold Slog.publish, Slog.resetGauges, Slog.snapshot.
    cbn [Slog.podsPerNamespace Slog.containerImageCount
         Slog.containerBaseImageType].
    by rewrite (rangeSet_range_order _ _ Hns), (rangeSet_range_order _ _ Himg),
               (rangeSet_range_order _ _ Hbt).
Qed.

End SlogFurther.

(** ** The program printed in the README against [src/discovery.go] *)

Section ReadmeDrift.
Import strings.
Variable u : string -> string.

Lemma Contains_sliceFrom n s p :
  Contains (sliceFrom n s) p = true -> Contains s p = true.
Proof.
  revert s. induction n as [|n IH]; intros s; [done|].
  destruct s as [|c s]; [done|]. cbn [sliceFrom]. intros H.
  cbn [Contains]. by rewrite (IH s H), orb_true_r.
Qed.

Lemma Contains_TrimPrefix s prefix p :
  Contains s p = false -> Contains (TrimPrefix s prefix) p = false.
Proof.
  intros H. unfold TrimPrefix. destruct (HasPrefix s prefix); [|done].
  destruct (Contains (sliceFrom _ s) p) eqn:E; [|done].
  by rewrite (Contains_sliceFrom _ _ _ E) in H.
Qed.

Lemma Readme_baseTypeOf_agrees value :
  Contains value "ubuntu" = false ->
  Contains value "chainguard" = false ->
  Contains value "wolfi" = false ->
  Readme.baseTypeOf value = Discovery.baseTypeOf value.
Proof.
  unfold Readme.baseTypeOf, Discovery.baseTypeOf. by intros -> -> ->.
Qed.

(** X21. The [parseOsRelease] printed in the README and the one of
    [src/discovery.go] return the same tag on every content none of
    whose lines mentions [ubuntu], [chainguard] or [wolfi] (in any
    letter case): the two programs differ on those three names only. *)
Theorem Readme_parseOsRelease_agrees (content : string) :
  Forall (fun l => Contains (ToLower u l) "ubuntu" = false
                   /\ Contains (ToLower u l) "chainguard" = false
                   /\ Contains (ToLower u l) "wolfi" = false)
         (Split content newline) ->
  Readme.parseOsRelease u content = Discovery.parseOsRelease u content.
Proof.
  unfold Readme.parseOsRelease, Discovery.parseOsRelease.
  induction 1 as [|line lines (Hu & Hc & Hw) _ IH]; [done|].
  cbn [Readme.parseOsRelease_lines Discovery.parseOsRelease_lines].
  destruct (_ || _); [|exact IH].
  apply Readme_baseTypeOf_agrees; rewrite Contains_Trim by done;
    by do 2 apply Contains_TrimPrefix.
Qed.

End ReadmeDrift.

(** ** The first program: the per-pod gauge and the image counts *)

Section FirstDraftFacts.
Import strings gomap corev1.
Variable u : string -> string.

Lemma scanContainer_fold containers s :
  let s' := fold_left (FirstDraft.scanContainer u) containers s in
  FirstDraft.imageMap s'
  = countFrom (FirstDraft.imageMap s) (map Image containers)
  /\ FirstDraft.isFips s'
     = FirstDraft.isFips s
       || existsb (FirstDraft.isFipsImage u) (map Image containers).
Proof.
  revert s. induction containers as [|c containers IH]; intros s.
  - cbn. by rewrite orb_false_r.
  - destruct (IH (FirstDraft.scanContainer u s c)) as (Himg & Hfips).
    cbn zeta in *. cbn [fold_left map existsb]. rewrite Himg, Hfips.
    unfold FirstDraft.scanContainer, FirstDraft.isFipsImage.
    cbn [FirstDraft.imageMap FirstDraft.isFips]. split.
    + change (countFrom (FirstDraft.imageMap s) (Image c :: map Image containers))
        with (countFrom (incr (Image c) (FirstDraft.imageMap s))
                        (map Image containers)).
      unfold incr, at_key. by rewrite Nat.add_1_r.
    + destruct (Contains _ "fips"); [by rewrite orb_true_r|].
      by rewrite orb_false_l.
Qed.

Lemma scanPod_step st pod :
  FirstDraft.scanPod u st pod
  = (countFrom (fst st) (map Image (Containers pod)),
     <[(Namespace pod, Name pod) := FirstDraft.fipsValueOf u pod]> (snd st)).
Proof.
  unfold FirstDraft.scanPod, FirstDraft.fipsValueOf.
  match goal with
  | |- context [fold_left ?f ?l ?s0] =>
      destruct (scanContainer_fold l s0) as (Himg & Hfips)
  end.
  cbn zeta in *. by rewrite Himg, Hfips.
Qed.

Lemma scanPod_fold items st :
  let st' := fold_left (FirstDraft.scanPod u) items st in
  fst st' = countFrom (fst st) (map Image (allContainers items))
  /\ (forall key,
        ~ In key (map (fun pod => (Namespace pod, Name pod)) items) ->
        snd st' !! key = snd st !! key)
  /\ (NoDup (map (fun pod => (Namespace pod, Name pod)) items) ->
      forall pod, In pod items ->
        snd st' !! (Namespace pod, Name pod) = Some (FirstDraft.fipsValueOf u pod)).
Proof.
  revert st. induction items as [|p items IH]; intros st.
  - cbn. repeat split; try done.
  - cbn [fold_left]. rewrite scanPod_step.
    match goal with
    | |- context [fold_left _ items ?st1] =>
        destruct (IH st1) as (Himg & Hother & Hpod)
    end.
    cbn zeta in *. cbn [fst snd] in *. rewrite Himg.
    unfold allContainers. cbn [flat_map map].
    rewrite map_app, countFrom_app. split; [done|]. split.
    + intros key Hnot. rewrite Hother.
      * apply lookup_insert_ne. intros <-. apply Hnot. by left.
      * intros Hin. apply Hnot. by right.
    + intros Hnd pod [<-|Hin].
      * rewrite Hother.
        -- apply lookup_insert_eq.
        -- apply NoDup_cons in Hnd as [Hnd _].
           by rewrite <- list_elem_of_In.
      * apply Hpod; [|done]. by apply NoDup_cons in Hnd as [_ Hnd].
Qed.

(** X22. In the first program, after a cycle over a listing whose pods
    have distinct (namespace, name) pairs, the gauge of each listed pod
    is [1] when the image reference of one of its containers holds
    [fips] in some letter case and [0] otherwise, a pod without
    containers getting [0]; no other pod has a gauge. *)
Theorem FirstDraft_pod_gauges (items : list Pod) (g g' : FirstDraft.Gauges) :
  NoDup (map (fun pod => (Namespace pod, Name pod)) items) ->
  FirstDraft.updateMetrics_run u (ListOk items) g g' ->
  (forall pod, In pod items ->
     FirstDraft.fipsEnabled g' !! (Namespace pod, Name pod)
     = Some (if existsb (FirstDraft.isFipsImage u) (map Image (Containers pod))
             then 1 else 0))
  /\ (forall key,
        ~ In key (map (fun pod => (Namespace pod, Name pod)) items) ->
        FirstDraft.fipsEnabled g' !! key = None).
Proof.
  intros Hnd Hrun.
  destruct Hrun as [Herr | items' imgOrder Hok Himg]; [done|].
  injection Hok as <-. cbn [FirstDraft.fipsEnabled].
  destruct (scanPod_fold items (∅, ∅)) as (_ & Hother & Hpod).
  cbn zeta in *. split.
  - intros pod Hin. by apply Hpod.
  - intros key Hnot. by rewrite (Hother key Hnot).
Qed.

(** X23. On the same listing, the image gauge of the first program and
    the image gauge of [src/discovery.go] hold the same labels with the
    same values: the later program kept that count as it was. *)
Theorem FirstDraft_image_counts_kept
        (clientset : Discovery.Clientset) (items : list Pod)
        (g g' : FirstDraft.Gauges) (d d' : Discovery.Gauges) :
  Discovery.ListPods clientset = ListOk items ->
  FirstDraft.updateMetrics_run u (ListOk items) g g' ->
  Discovery.updateMetrics_run u clientset d d' ->
  FirstDraft.imageCount g' = Discovery.containerImageCount d'.
Proof.
  intros Hlist Hfirst Hlater.
  rewrite (run_publishes_snapshot u clientset items d d' Hlist Hlater).
  destruct Hfirst as [Herr | items' imgOrder Hok Himg]; [done|].
  injection Hok as <-. cbn [FirstDraft.imageCount].
  rewrite (rangeSet_range_order _ _ Himg).
  destruct (scanPod_fold items (∅, ∅)) as (Hmap & _).
  destruct (tally_counts u clientset items) as (_ & Himage & _).
  cbn zeta in *. unfold Discovery.snapshot.
  cbn [Discovery.containerImageCount]. by rewrite Hmap, Himage.
Qed.

End FirstDraftFacts.

(** ** Worked instances of the further properties *)

Lemma FirstDraft_updateMetrics_is_run u listing g :
  FirstDraft.updateMetrics_run u listing g (FirstDraft.updateMetrics u listing g).
Proof.
  unfold FirstDraft.updateMetrics. destruct listing as [|items].
  - by apply FirstDraft.run_list_failed.
  - apply (FirstDraft.run_published u (corev1.ListOk items) g items);
      [done | apply range_order_map_to_list].
Qed.

(** X3 on [alpineRelease], whose identity line is its second line. *)
Lemma parseOsRelease_trimming_inert_witness :
  Discovery.parseOsRelease asciiOnly alpineRelease
  = Discovery.baseTypeOf (strings.ToLower asciiOnly "NAME=Alpine Linux").
Proof.
  apply (parseOsRelease_trimming_inert asciiOnly alpineRelease
           ["PRETTY=x"] ["ID=debian"] "NAME=Alpine Linux").
  - reflexivity.
  - repeat constructor.
  - reflexivity.
Defined.

(** X4 on a content without identity line. *)
Lemma Unknown_implies_unknown_witness :
  Slog.parseOsRelease asciiOnly "PRETTY_NAME=Debian" = "unknown".
Proof.
  apply (Unknown_implies_unknown asciiOnly "PRETTY_NAME=Debian"). reflexivity.
Defined.

(** X6 on the container of [fipsPod], when the stream fails and when no
    executor can be created. *)
Lemma compliant_needs_fips_token_witness :
  (Discovery.Exec brokenStream 0 (corev1.Namespace fipsPod)
                  (corev1.Name fipsPod) (corev1.ContainerName fipsContainer)
   <> Discovery.ExecutorError
   /\ (strings.Contains
         (strings.ToLower asciiOnly (corev1.Image fipsContainer)) "fips" = true
       \/ exists osRelease,
            Discovery.Exec brokenStream 0 (corev1.Namespace fipsPod)
                           (corev1.Name fipsPod)
                           (corev1.ContainerName fipsContainer)
            = Discovery.StreamOk osRelease
            /\ strings.Contains (strings.ToLower asciiOnly osRelease) "fips"
               = true))
  /\ snd (Discovery.getContainerDetails asciiOnly noExecutor 0
                                        fipsPod fipsContainer) = false.
Proof.
  split.
  - destruct (compliant_needs_fips_token asciiOnly brokenStream 0
                fipsPod fipsContainer) as (H & _).
    apply H. reflexivity.
  - destruct (compliant_needs_fips_token asciiOnly noExecutor 0
                fipsPod fipsContainer) as (_ & H).
    apply H. reflexivity.
Defined.

(** C7 on an identity line and on a marker written in two letter cases. *)
Lemma classifier_case_insensitive_witness :
  Discovery.parseOsRelease asciiOnly
    ("X=1" +:+ String strings.newline "id" +:+ String "="%char "DEBIAN"
     +:+ String strings.newline "NAME=alpine")
  = Discovery.parseOsRelease asciiOnly
      ("X=1" +:+ String strings.newline "ID" +:+ String "="%char "debian"
       +:+ String strings.newline "NAME=alpine")
  /\ Discovery.isFipsCompliant asciiOnly "Fips_Mode=YES" "Registry/App-FIPS"
     = Discovery.isFipsCompliant asciiOnly "FIPS_MODE=yes" "registry/app-fips".
Proof.
  destruct (classifier_case_insensitive asciiOnly) as (Hline & Hwhole).
  split.
  - apply (Hline ("X=1" +:+ String strings.newline "") "ID" "debian"
                 (String strings.newline "NAME=alpine") "id" "DEBIAN");
      reflexivity.
  - apply (Hwhole "FIPS_MODE=yes" "Fips_Mode=YES"
                  "registry/app-fips" "Registry/App-FIPS"); reflexivity.
Defined.

(** C7 outside ASCII: [CENTO] followed by U+017F and [CENTOS] differ in
    letter case only, both being [CENTOS] in upper case, and so do [FIP]
    followed by U+017F and [FIPS]; [strings.ToLower] keeps U+017F, so
    the first of each pair is not recognised where the second is. *)
Lemma long_s_is_not_folded :
  unicode.upperWithLongS ("ID=CENTO" +:+ unicode.longS)
  = unicode.upperWithLongS "ID=CENTOS"
  /\ unicode.upperWithLongS ("FIP" +:+ unicode.longS +:+ "=1")
     = unicode.upperWithLongS "FIPS=1"
  /\ Discovery.parseOsRelease unicode.lowerKeepingOthers
       ("ID=CENTO" +:+ unicode.longS)
     <> Discovery.parseOsRelease unicode.lowerKeepingOthers "ID=CENTOS"
  /\ Discovery.isFipsCompliant unicode.lowerKeepingOthers
       ("FIP" +:+ unicode.longS +:+ "=1") "nginx:1.25"
     <> Discovery.isFipsCompliant unicode.lowerKeepingOthers "FIPS=1" "nginx:1.25".
Proof. repeat split; vm_compute; discriminate. Qed.

(** X7 on a content that spells a marker in mixed case. *)
Lemma isFipsCompliant_ascii_iff_witness :
  Discovery.isFipsCompliant asciiOnly "Fips_Mode=YES" "nginx:1.25" = true.
Proof.
  apply (isFipsCompliant_ascii_iff asciiOnly "Fips_Mode=YES" "nginx:1.25").
  - reflexivity.
  - left. exists "", "Fips_Mode=YES", "", "fips_mode=yes".
    split; [reflexivity|]. split; [by left | reflexivity].
Defined.

(** X8 and X9 on a content written in two letter cases. *)
Lemma parseOsRelease_whole_content_case_witness :
  Discovery.parseOsRelease asciiOnly alpineRelease
  = Discovery.parseOsRelease asciiOnly
      ("pretty=X" +:+ String strings.newline "name=ALPINE linux"
       +:+ String strings.newline "Id=Debian").
Proof.
  apply (parseOsRelease_whole_content_case asciiOnly); reflexivity.
Defined.

Lemma Slog_parseOsRelease_whole_content_case_witness :
  Slog.parseOsRelease asciiOnly alpineRelease
  = Slog.parseOsRelease asciiOnly
      ("pretty=X" +:+ String strings.newline "name=ALPINE linux"
       +:+ String strings.newline "Id=Debian").
Proof.
  apply (Slog_parseOsRelease_whole_content_case asciiOnly); reflexivity.
Defined.

(** X10 on the namespace of [fipsPod]. *)
Lemma tally_labels_inhabited_witness :
  (exists pod, In pod [fipsPod] /\ corev1.Namespace pod = "default")
  /\ 0 < 1.
Proof.
  destruct (tally_labels_inhabited asciiOnly brokenStream [fipsPod])
    as (Hiff & Hns & _).
  split.
  - apply Hiff. by eexists.
  - apply (Hns "default" 1). reflexivity.
Defined.

(** X13 on the cycle over [alpineCluster]. *)
Lemma tally_base_type_labels_witness :
  In "Alpine" Discovery.baseTypeTags.
Proof.
  destruct (tally_base_type_labels asciiOnly alpineCluster [alpinePod]) as (H & _).
  apply H. by eexists.
Defined.

(** X15 on the cycle over [brokenStream]. *)
Lemma published_totals_witness :
  let g' := Discovery.updateMetrics asciiOnly brokenStream earlierGauges in
  gomap.sumValues (Discovery.podsPerNamespace g') = 1
  /\ gomap.sumValues (Discovery.containerImageCount g') = 1
  /\ gomap.sumValues (Discovery.containerBaseImageType g') = 1
  /\ Discovery.containersFipsCompliant g' <= 1.
Proof.
  apply (published_totals asciiOnly brokenStream [fipsPod] earlierGauges).
  - reflexivity.
  - apply updateMetrics_is_run.
Defined.

(** X16 on a cluster that lists no pod. *)
Lemma empty_listing_clears_gauges_witness :
  Discovery.updateMetrics asciiOnly emptyCluster earlierGauges
  = Discovery.registered.
Proof.
  apply (empty_listing_clears_gauges asciiOnly emptyCluster earlierGauges).
  - reflexivity.
  - apply updateMetrics_is_run.
Defined.

(** X17 on four iterations, the second and the last of which fail. *)
Lemma mainLoop_shows_last_listing_witness :
  Discovery.mainLoop asciiOnly
    [brokenStream; unreachable; alpineCluster; unreachable] earlierGauges
  = Discovery.snapshot asciiOnly alpineCluster [alpinePod].
Proof.
  apply (mainLoop_shows_last_listing asciiOnly
           [brokenStream; unreachable; alpineCluster; unreachable] earlierGauges).
  apply mainLoop_is_run.
Defined.

(** X19 and X20 on the cycle over [alpineClusterSlog]. *)
Lemma Slog_base_type_labels_witness :
  In "alpine" Slog.baseTypeTags.
Proof.
  destruct (Slog_base_type_labels asciiOnly alpineClusterSlog [alpinePod]) as (H & _).
  apply H. by eexists.
Defined.

Lemma Slog_run_publishes_snapshot_witness :
  Slog.updateMetrics asciiOnly alpineClusterSlog earlierGaugesSlog
  = Slog.snapshot asciiOnly alpineClusterSlog [alpinePod].
Proof.
  apply (Slog_run_publishes_snapshot asciiOnly alpineClusterSlog [alpinePod]
           earlierGaugesSlog).
  - reflexivity.
  - apply Slog_updateMetrics_is_run.
Defined.

(** X21 on [alpineRelease], which mentions none of the three names. *)
Lemma Readme_parseOsRelease_agrees_witness :
  Readme.parseOsRelease asciiOnly alpineRelease
  = Discovery.parseOsRelease asciiOnly alpineRelease.
Proof.
  apply (Readme_parseOsRelease_agrees asciiOnly alpineRelease).
  assert (E : strings.Split alpineRelease strings.newline
              = ["PRETTY=x"; "NAME=Alpine Linux"; "ID=debian"]) by reflexivity.
  rewrite E.
  repeat (constructor; [repeat split; vm_compute; reflexivity|]).
  constructor.
Defined.

(** X22 and X23 on a listing of two pods. *)
Lemma FirstDraft_pod_gauges_witness :
  let g' := FirstDraft.updateMetrics asciiOnly (corev1.ListOk [fipsPod; alpinePod])
                                     earlierGaugesFirstDraft in
  FirstDraft.fipsEnabled g' !! ("default", "web") = Some 1
  /\ FirstDraft.fipsEnabled g' !! ("batch", "job-1") = Some 0
  /\ FirstDraft.fipsEnabled g' !! ("kube-system", "dns") = None.
Proof.
  intros g'.
  destruct (FirstDraft_pod_gauges asciiOnly [fipsPod; alpinePod]
              earlierGaugesFirstDraft g') as (Hpod & Hother).
  - repeat (apply NoDup_cons; split;
            [rewrite list_elem_of_In; simpl; intuition discriminate|]).
    apply NoDup_nil_2.
  - apply FirstDraft_updateMetrics_is_run.
  - split; [|split].
    + apply (Hpod fipsPod). by left.
    + apply (Hpod alpinePod). right. by left.
    + apply Hother. simpl. intuition discriminate.
Defined.

Lemma FirstDraft_image_counts_kept_witness :
  FirstDraft.imageCount
    (FirstDraft.updateMetrics asciiOnly (corev1.ListOk [alpinePod])
                              earlierGaugesFirstDraft)
  = Discovery.containerImageCount
      (Discovery.updateMetrics asciiOnly alpineCluster earlierGauges).
Proof.
  apply (FirstDraft_image_counts_kept asciiOnly alpineCluster [alpinePod]
           earlierGaugesFirstDraft _ earlierGauges).
  - reflexivity.
  - apply FirstDraft_updateMetrics_is_run.
  - apply updateMetrics_is_run.
Defined.

(** The content of C8 under the program printed in the README. *)
Example readme_ubuntu_release :
  Readme.parseOsRelease asciiOnly ubuntuRelease = "Ubuntu".
Proof. reflexivity. Qed.
